(** * yt_extractor: a shallow embedding of the channel-to-spreadsheet tool

    The development follows the package layout:
    - [config.py]         the constant tables,
    - [extractor.py]      [VideoExtractor.extract],
    - [exporter.py]       [ExcelExporter.export] and [_sanitize_filename],
    - [config_loader.py]  [ConfigLoader],
    - [__main__.py]       [main], [process_single_channel], [process_config_file].

    Python values are the ones a YAML document or the listing backend can
    hold: None, booleans, integers, strings, lists and dictionaries.  A string
    is its sequence of code points, so that [len], slicing and [<] on strings
    are the ones of Python.  The external collaborators (the listing backend,
    the YAML parser, the file system, the spreadsheet library, the standard
    output, the clock, [str.format], the rendering of compound values) are
    fields of an environment record [env]. *)

From stdpp Require Import gmap strings list fin_maps pretty sorting.
From Stdlib Require Import ZArith NArith Ascii Permutation.

Local Open Scope string_scope.
Local Open Scope list_scope.

(* ===================================================================== *)
(** * Python values *)
(* ===================================================================== *)

(** A Python [str]: the list of its code points. *)
Abbreviation pystr := (list N).

(** A literal of the source text (all of them are ASCII). *)
Definition lit (s : string) : pystr := N_of_ascii <$> String.list_ascii_of_string s.

Unset Elimination Schemes.
Inductive pyval :=
  | PNone
  | PBool (b : bool)
  | PInt (z : Z)
  | PStr (s : pystr)
  | PList (l : list pyval)
  | PDict (d : gmap string pyval).
Set Elimination Schemes.

Abbreviation pydict := (gmap string pyval).

(** Truth value of an object ([if x], [not x], [x or y]). *)
Definition truthy (v : pyval) : bool :=
  match v with
  | PNone => false
  | PBool b => b
  | PInt z => negb (z =? 0)%Z
  | PStr s => match s with [] => false | _ => true end
  | PList l => match l with [] => false | _ => true end
  | PDict d => match map_to_list d with [] => false | _ => true end
  end.

(** [a or b] *)
Definition py_or (a b : pyval) : pyval := if truthy a then a else b.

(** Booleans are integers: [True == 1]. *)
Definition as_int (v : pyval) : option Z :=
  match v with
  | PBool b => Some (if b then 1 else 0)%Z
  | PInt z => Some z
  | _ => None
  end.

(** [a == b] *)
Fixpoint py_eq (a b : pyval) {struct a} : bool :=
  match a, b with
  | PNone, PNone => true
  | PStr s, PStr t => bool_decide (s = t)
  | PList xs, PList ys =>
      (fix go xs ys :=
         match xs, ys with
         | [], [] => true
         | x :: xs', y :: ys' => py_eq x y && go xs' ys'
         | _, _ => false
         end) xs ys
  | PDict d, PDict d' =>
      bool_decide (dom d = dom d') &&
      map_fold (λ k v acc,
                  acc && match d' !! k with Some v' => py_eq v v' | None => false end)
               true d
  | _, _ =>
      match as_int a, as_int b with
      | Some x, Some y => (x =? y)%Z
      | _, _ => false
      end
  end.

(** [needle in hay] on strings: [needle] occurs as a contiguous run. *)
Fixpoint is_prefix (p s : pystr) : bool :=
  match p, s with
  | [], _ => true
  | _ :: _, [] => false
  | a :: p', b :: s' => (a =? b)%N && is_prefix p' s'
  end.

Fixpoint is_substring (p s : pystr) : bool :=
  is_prefix p s ||
  match s with
  | [] => false
  | _ :: s' => is_substring p s'
  end.

(** [str(n)] for a non-negative integer, and [str(z)] for an integer. *)
Definition str_of_nat (n : nat) : pystr := lit (pretty n).
Definition str_of_Z (z : Z) : pystr := lit (pretty z).

(* ===================================================================== *)
(** * Paths, exceptions, results *)
(* ===================================================================== *)

(** [pathlib.Path] values, kept as the expressions that build them.  [Join p s]
    is the expression [p / s], not a place below [p]: pathlib gives [s] alone
    when [s] is absolute, and keeps the [..] segments of [s]. *)
Inductive path :=
  | Path (s : pystr)            (* Path(s) *)
  | Cwd                         (* Path.cwd() *)
  | Join (p : path) (s : pystr) (* p / s *).

Inductive exn_class :=
  | FileNotFoundError | ValueError | TypeError | AttributeError | KeyError
  | UnicodeEncodeError | YAMLError | OSError | Exception
  | KeyboardInterrupt | SystemExit.

(** [except Exception] catches every class but the two that derive from
    [BaseException] directly. *)
Definition is_Exception (c : exn_class) : bool :=
  match c with
  | KeyboardInterrupt | SystemExit => false
  | _ => true
  end.

(** Formatted text is kept as the pieces of the f-string that produced it:
    the rendering of a path, of an exception or of a compound value is the
    interpreter's. *)
Unset Elimination Schemes.
Inductive exn :=
  | Exn (cls : exn_class) (msg : list piece)
with piece :=
  | Txt (s : pystr)      (* literal text, or a string value *)
  | Num (n : nat)        (* an integer *)
  | OfVal (v : pyval)    (* str(v) of a value *)
  | OfPath (p : path)    (* str(p) *)
  | OfExn (e : exn)      (* str(e) *).
Set Elimination Schemes.

Definition exn_cls (e : exn) : exn_class := let 'Exn c _ := e in c.

(** An exception raised by the interpreter or by a library: its text is not
    the program's. *)
Definition builtin (c : exn_class) : exn := Exn c [].

Inductive result (A : Type) :=
  | Ok (a : A)
  | Raise (e : exn).
Arguments Ok {A} a.
Arguments Raise {A} e.

#[global] Instance result_ret : MRet result := λ A a, Ok a.
#[global] Instance result_bind : MBind result := λ A B k r,
  match r with
  | Ok a => k a
  | Raise e => Raise e
  end.

(** [v.get(k, dflt)]: only dictionaries have the method. *)
Definition py_get (v : pyval) (k : string) (dflt : pyval) : result pyval :=
  match v with
  | PDict d => Ok (default dflt (d !! k))
  | _ => Raise (builtin AttributeError)
  end.

(** [for x in v]: the items of a list, the characters of a string, the keys
    of a dictionary (in the enumeration order of the map: insertion order is
    not tracked); the other values are not iterable. *)
Definition py_iter (v : pyval) : result (list pyval) :=
  match v with
  | PList l => Ok l
  | PStr s => Ok ((λ c, PStr [c]) <$> s)
  | PDict d => Ok ((λ kv, PStr (lit kv.1)) <$> map_to_list d)
  | _ => Raise (builtin TypeError)
  end.

(** [k in v] for a string [k]. *)
Definition py_contains (k : string) (v : pyval) : result bool :=
  match v with
  | PDict d => Ok (bool_decide (is_Some (d !! k)))
  | PList l => Ok (existsb (λ x, py_eq x (PStr (lit k))) l)
  | PStr s => Ok (is_substring (lit k) s)
  | _ => Raise (builtin TypeError)
  end.

(** [v[k]] for a string [k]: a list or a string cannot be indexed by it. *)
Definition py_getitem (v : pyval) (k : string) : result pyval :=
  match v with
  | PDict d => match d !! k with
               | Some x => Ok x
               | None => Raise (Exn KeyError [Txt (lit k)])
               end
  | _ => Raise (builtin TypeError)
  end.

(** [s < t] on strings: lexicographic on code points. *)
Fixpoint str_lt (s t : pystr) : bool :=
  match s, t with
  | _, [] => false
  | [], _ :: _ => true
  | a :: s', b :: t' => (a <? b)%N || ((a =? b)%N && str_lt s' t')
  end.

(** [a < b]: strings with strings, integers with integers, lists item by
    item; None, dictionaries and mixed operands are not ordered. *)
Fixpoint py_lt (a b : pyval) {struct a} : result bool :=
  match a, b with
  | PStr s, PStr t => Ok (str_lt s t)
  | PList xs, PList ys =>
      (fix go xs ys :=
         match xs, ys with
         | [], [] => Ok false
         | [], _ :: _ => Ok true
         | _ :: _, [] => Ok false
         | x :: xs', y :: ys' => if py_eq x y then go xs' ys' else py_lt x y
         end) xs ys
  | _, _ =>
      match as_int a, as_int b with
      | Some x, Some y => Ok (x <? y)%Z
      | _, _ => Raise (builtin TypeError)
      end
  end.

(* ===================================================================== *)
(** * config.py *)
(* ===================================================================== *)

Definition EXCEL_COLUMNS : list pyval :=
  [PStr (lit "ID"); PStr (lit "Title"); PStr (lit "Description"); PStr (lit "URL")].

(** Values of the backend's option table. *)
Inductive optval :=
  | OBool (b : bool)
  | OStr (s : pystr)
  | OSslContext (cafile : pystr)  (* ssl.create_default_context(cafile=...) *).

Abbreviation options := (gmap string optval).

Definition YT_DLP_OPTIONS : options :=
  <["quiet" := OBool true]> (
  <["no_warnings" := OBool true]> (
  <["extract_flat" := OStr (lit "in_playlist")]> (
  <["skip_download" := OBool true]> (
  <["no_check_certificates" := OBool true]> ∅)))).

(* ===================================================================== *)
(** * The outside world *)
(* ===================================================================== *)

(** A worksheet of the spreadsheet library, as far as the program uses it. *)
Record worksheet := {
  ws_title : pystr;
  ws_rows : list (list pyval);
  ws_bold_centered : list nat;            (* rows styled bold and centred (1-based) *)
  ws_widths : gmap string Z               (* column letter to width *)
}.

(** A line of console output: the pieces of the printed f-string. *)
Abbreviation line := (list piece).

Record world := {
  stdout : list line;
  stderr : list line;
  ydl_calls : list (options * pyval);     (* calls of the listing backend, oldest first *)
  made_dirs : list path;                  (* mkdir(parents=True, exist_ok=True) *)
  saved : list (path * worksheet)         (* the calls wb.save(path) that
                                             returned, oldest first; a later
                                             one at the same place replaces
                                             the file of an earlier one *)
}.

Definition world0 : world :=
  {| stdout := []; stderr := []; ydl_calls := []; made_dirs := []; saved := [] |}.

(** The collaborators the program consumes. *)
Record env := {
  certifi_where : pystr;
    (* certifi.where(): the bundled trust store *)
  extract_info : nat → options → pyval → result pyval;
    (* YoutubeDL(options).extract_info(url, download=False); the first
       argument counts the earlier calls of the run *)
  repr_compound : pyval → pystr;
    (* str() of a list or of a dictionary *)
  file_text : path → option pystr;
    (* the text of a file, None when it does not exist *)
  yaml_safe_load : pystr → option pyval;
    (* yaml.safe_load, None when it raises yaml.YAMLError *)
  today : pystr;
    (* datetime.now().strftime("%Y%m%d") *)
  str_format : pystr → pystr → pystr → result pystr;
    (* template.format(channel_name=..., date=...) *)
  mkdir_error : path → option exn;
  save_error : path → option exn;
  append_error : list pyval → option exn;
    (* ws.append(row): the error of the spreadsheet library when it refuses
       a row (a control character in a text cell, a list or a dictionary as
       a cell), None when it takes the row *)
  print_error : line → option exn
    (* print(...) on the standard output: the error of the write
       (UnicodeEncodeError when the encoding of the stream lacks a
       character of the line), None when the line is written *)
}.

(** State and exception monad over the world. *)
Definition M (A : Type) : Type := world → result A * world.

#[global] Instance M_ret : MRet M := λ A a w, (Ok a, w).
#[global] Instance M_bind : MBind M := λ A B k m w,
  match m w with
  | (Ok a, w') => k a w'
  | (Raise e, w') => (Raise e, w')
  end.
Definition raise {A} (e : exn) : M A := λ w, (Raise e, w).
Definition lift {A} (r : result A) : M A := λ w, (r, w).

(** [try: m except Exception as e: h e] *)
Definition try_except {A} (m : M A) (h : exn → M A) : M A :=
  λ w, match m w with
       | (Raise e, w') => if is_Exception (exn_cls e) then h e w' else (Raise e, w')
       | r => r
       end.

(** [print(l)]: the line reaches the standard output unless the stream
    refuses it. *)
Definition print (E : env) (l : line) : M unit :=
  λ w, match print_error E l with
       | Some e => (Raise e, w)
       | None =>
           (Ok tt, {| stdout := stdout w ++ [l]; stderr := stderr w;
                      ydl_calls := ydl_calls w; made_dirs := made_dirs w;
                      saved := saved w |})
       end.

(** [print(l, file=sys.stderr)]: the error stream escapes the characters its
    encoding lacks (its error handler is backslashreplace), so that it takes
    every line. *)
Definition print_err (l : line) : M unit :=
  λ w, (Ok tt, {| stdout := stdout w; stderr := stderr w ++ [l];
                  ydl_calls := ydl_calls w; made_dirs := made_dirs w; saved := saved w |}).

(* ===================================================================== *)
(** * extractor.py *)
(* ===================================================================== *)

Section Extractor.
Context (E : env).

(** [str(v)] inside an f-string. *)
Definition py_str (v : pyval) : pystr :=
  match v with
  | PNone => lit "None"
  | PBool true => lit "True"
  | PBool false => lit "False"
  | PInt z => str_of_Z z
  | PStr s => s
  | _ => repr_compound E v
  end.

(** The option table [extract] hands to the backend:
    [{**YT_DLP_OPTIONS, "ssl_context": ssl_context, "extract_flat": "in_playlist"}]. *)
Definition extract_options : options :=
  <["extract_flat" := OStr (lit "in_playlist")]> (
  <["ssl_context" := OSslContext (certifi_where E)]> YT_DLP_OPTIONS).

(** [ydl.extract_info(self.channel_url, download=False)] *)
Definition ydl_extract_info (opts : options) (url : pyval) : M pyval :=
  λ w, (extract_info E (length (ydl_calls w)) opts url,
        {| stdout := stdout w; stderr := stderr w;
           ydl_calls := ydl_calls w ++ [(opts, url)];
           made_dirs := made_dirs w; saved := saved w |}).

(** First loop of [extract]: one level of playlists is opened. *)
Fixpoint flatten_entries (entries all_videos : list pyval) : result (list pyval) :=
  match entries with
  | [] => Ok all_videos
  | entry :: rest =>
      if negb (truthy entry) then flatten_entries rest all_videos
      else
        ty ← py_get entry "_type" PNone;
        if py_eq ty (PStr (lit "playlist")) then
          sub_entries ← py_get entry "entries" (PList []);
          subs ← py_iter sub_entries;
          flatten_entries rest (all_videos ++ filter (λ e, truthy e = true) subs)
        else
          flatten_entries rest (all_videos ++ [entry])
  end.

Definition watch_url (video_id : pyval) : pystr :=
  lit "https://www.youtube.com/watch?v=" ++ py_str video_id.

(** The dictionary built for one entry with an id. *)
Definition video_data (video_id title description upload_date : pyval) : pydict :=
  <["id" := video_id]> (
  <["title" := title]> (
  <["description" := description]> (
  <["url" := PStr (watch_url video_id)]> (
  <["upload_date" := upload_date]> ∅)))).

(** Second loop of [extract]. *)
Fixpoint build_videos (all_videos videos : list pyval) : result (list pyval) :=
  match all_videos with
  | [] => Ok videos
  | entry :: rest =>
      video_id ← py_get entry "id" (PStr []);
      if negb (truthy video_id) then build_videos rest videos
      else
        title ← py_get entry "title" (PStr []);
        description ← py_get entry "description" (PStr []);
        release_timestamp ← py_get entry "release_timestamp" (PStr []);
        upload_date ← py_get entry "upload_date" release_timestamp;
        build_videos rest
          (videos ++ [PDict (video_data video_id title description upload_date)])
  end.

(** The body of the [with] block, once the backend has answered. *)
Definition extract_from_info (info : pyval) : result (list pyval * pyval) :=
  if negb (truthy info) then
    Raise (Exn ValueError [Txt (lit "Could not extract channel information")])
  else
    uploader ← py_get info "uploader" (PStr (lit "unknown"));
    channel_name ← py_get info "channel" uploader;
    entries ← py_get info "entries" (PList []);
    items ← py_iter entries;
    all_videos ← flatten_entries items [];
    videos ← build_videos all_videos [];
    Ok (videos, channel_name).

(** [VideoExtractor(channel_url).extract()] *)
Definition extract (channel_url : pyval) : M (list pyval * pyval) :=
  try_except
    (info ← ydl_extract_info extract_options channel_url;
     lift (extract_from_info info))
    (λ e, raise (Exn Exception [Txt (lit "Failed to extract videos: "); OfExn e])).

End Extractor.

(* ===================================================================== *)
(** * exporter.py *)
(* ===================================================================== *)

(** [s.replace(c, new)] for a one-character [c]. *)
Definition str_replace (c : N) (new : pystr) (s : pystr) : pystr :=
  s ≫= (λ x, if (x =? c)%N then new else [x]).

(** [s.lstrip(chars)], [s.rstrip(chars)], [s.strip(chars)] *)
Fixpoint str_lstrip (chars s : pystr) : pystr :=
  match s with
  | [] => []
  | x :: s' => if bool_decide (x ∈ chars) then str_lstrip chars s' else s
  end.
Definition str_rstrip (chars s : pystr) : pystr :=
  reverse (str_lstrip chars (reverse s)).
Definition str_strip (chars s : pystr) : pystr :=
  str_rstrip chars (str_lstrip chars s).

(** The characters replaced: less-than, greater-than, colon, double quote
    (code point 34), slash, backslash, bar, question mark and star. *)
Definition invalid_chars : pystr := lit "<>:" ++ [34%N] ++ lit "/\|?*".

Definition max_length : nat := 100.

Definition _sanitize_filename (filename : pystr) : pystr :=
  let filename := foldl (λ fn char, str_replace char (lit "_") fn) filename invalid_chars in
  let filename := str_strip (lit ". ") filename in
  let filename := if bool_decide (max_length < length filename)
                  then take max_length filename else filename in
  match filename with
  | [] => lit "channel"
  | _ => filename
  end.

(** The call [self._sanitize_filename(self.channel_name)]: the name need not
    be a string, and only a string has [replace]. *)
Definition sanitize_channel_name (channel_name : pyval) : result pystr :=
  match channel_name with
  | PStr s => Ok (_sanitize_filename s)
  | _ => Raise (builtin AttributeError)
  end.

(** [x.get("upload_date") or ""] *)
Definition sort_key (x : pyval) : result pyval :=
  d ← py_get x "upload_date" PNone;
  Ok (py_or d (PStr [])).

(** [sorted(xs, key=..., reverse=True)]: a stable sort by decreasing key,
    records with equal keys staying in their original order.  [xs] holds the
    records with their keys. *)
Fixpoint insert_desc {A} (k : pyval) (x : A) (l : list (pyval * A))
    : result (list (pyval * A)) :=
  match l with
  | [] => Ok [(k, x)]
  | (k', y) :: l' =>
      lt ← py_lt k k';
      if lt : bool then r ← insert_desc k x l'; Ok ((k', y) :: r)
      else Ok ((k, x) :: l)
  end.

Fixpoint sort_desc {A} (xs : list (pyval * A)) : result (list (pyval * A)) :=
  match xs with
  | [] => Ok []
  | (k, x) :: rest => r ← sort_desc rest; insert_desc k x r
  end.

(** The keys are computed for every record before any is compared. *)
Fixpoint with_keys (videos : list pyval) : result (list (pyval * pyval)) :=
  match videos with
  | [] => Ok []
  | v :: rest => k ← sort_key v; r ← with_keys rest; Ok ((k, v) :: r)
  end.

Definition sorted_videos (videos : list pyval) : result (list pyval) :=
  keyed ← with_keys videos;
  s ← sort_desc keyed;
  Ok (s.*2).

(** The row handed to [ws.append] for one video. *)
Definition video_row (video : pyval) : result (list pyval) :=
  id ← py_get video "id" (PStr []);
  title ← py_get video "title" (PStr []);
  description ← py_get video "description" (PStr []);
  url ← py_get video "url" (PStr []);
  Ok [id; title; description; url].

(** [_adjust_column_widths] *)
Definition _adjust_column_widths (ws : worksheet) : worksheet :=
  {| ws_title := ws_title ws; ws_rows := ws_rows ws;
     ws_bold_centered := ws_bold_centered ws;
     ws_widths := <["D" := 50%Z]> (<["C" := 80%Z]> (<["B" := 50%Z]> (
                  <["A" := 15%Z]> (ws_widths ws)))) |}.

(** The sheet [export] fills: header, style of row 1, one row per video. *)
Definition fill_worksheet (rows : list (list pyval)) : worksheet :=
  _adjust_column_widths
    {| ws_title := lit "Videos"; ws_rows := EXCEL_COLUMNS :: rows;
       ws_bold_centered := [1]; ws_widths := ∅ |}.

Section Exporter.
Context (E : env).

(** [ws.append(row)] *)
Definition ws_append (row : list pyval) : result unit :=
  match append_error E row with
  | Some e => Raise e
  | None => Ok tt
  end.

(** The loop over the sorted videos: each row is built and appended before
    the next video is looked at. *)
Fixpoint video_rows (videos : list pyval) : result (list (list pyval)) :=
  match videos with
  | [] => Ok []
  | v :: rest =>
      r ← video_row v;
      ws_append r;;
      rs ← video_rows rest;
      Ok (r :: rs)
  end.

(** The sheet is filled after the sort: the header first, then the rows. *)
Definition build_worksheet (videos : list pyval) : result worksheet :=
  sorted ← sorted_videos videos;
  ws_append EXCEL_COLUMNS;;
  rows ← video_rows sorted;
  Ok (fill_worksheet rows).

Definition mkdir (p : path) : M unit :=
  λ w, match mkdir_error E p with
       | Some e => (Raise e, w)
       | None => (Ok tt, {| stdout := stdout w; stderr := stderr w;
                            ydl_calls := ydl_calls w;
                            made_dirs := made_dirs w ++ [p]; saved := saved w |})
       end.

Definition wb_save (p : path) (ws : worksheet) : M unit :=
  λ w, match save_error E p with
       | Some e => (Raise e, w)
       | None => (Ok tt, {| stdout := stdout w; stderr := stderr w;
                            ydl_calls := ydl_calls w; made_dirs := made_dirs w;
                            saved := saved w ++ [(p, ws)] |})
       end.

(** [filename_format.format(channel_name=..., date=...)] *)
Definition format_filename (filename_format : pyval) (safe_channel_name : pystr)
    : result pystr :=
  match filename_format with
  | PNone => str_format E (lit "{channel_name}_videos.xlsx") safe_channel_name (today E)
  | PStr t => str_format E t safe_channel_name (today E)
  | _ => Raise (builtin AttributeError)
  end.

(** The part of [export] after the sheet is filled. *)
Definition save_worksheet (ws : worksheet) (channel_name : pyval)
    (output_dir : option path) (filename_format : pyval) : M path :=
  let output_dir := match output_dir with
                    | None => Join Cwd (lit "outputs")
                    | Some p => p
                    end in
  mkdir output_dir;;
  safe_channel_name ← lift (sanitize_channel_name channel_name);
  filename ← lift (format_filename filename_format safe_channel_name);
  let output_path := Join output_dir filename in
  wb_save output_path ws;;
  mret output_path.

Definition export_failed {A} (e : exn) : M A :=
  raise (Exn Exception [Txt (lit "Failed to export to Excel: "); OfExn e]).

(** [ExcelExporter(videos, channel_name).export(output_dir, filename_format)] *)
Definition export (videos : list pyval) (channel_name : pyval)
    (output_dir : option path) (filename_format : pyval) : M path :=
  try_except
    (ws ← lift (build_worksheet videos);
     save_worksheet ws channel_name output_dir filename_format)
    export_failed.

End Exporter.

(* ===================================================================== *)
(** * config_loader.py *)
(* ===================================================================== *)

Record ConfigLoader := {
  config_path : path;
  _config : pyval
}.

(** [ConfigLoader(config_path)] *)
Definition ConfigLoader_init (config_path : pystr) : ConfigLoader :=
  {| config_path := Path config_path; _config := PDict ∅ |}.

(** The methods update the loader in place: they return the loader they leave
    behind next to their result, also when they raise. *)
Definition L (A : Type) : Type := ConfigLoader → result A * ConfigLoader.

Definition channel_placeholder (i : nat) : pystr := lit "Channel " ++ str_of_nat i.

(** The loop of [_validate] from index [i] on; the entries are updated in
    place, so the list comes back with the defaults filled in as far as the
    loop got. *)
Fixpoint validate_channels (i : nat) (channels : list pyval)
    : result unit * list pyval :=
  match channels with
  | [] => (Ok tt, [])
  | channel :: rest =>
      match channel with
      | PDict d =>
          if bool_decide (d !! "url" = None) then
            (Raise (Exn ValueError [Txt (lit "Channel "); Num i;
                                    Txt (lit " missing required 'url' field")]),
             channel :: rest)
          else
            let d := if bool_decide (d !! "enabled" = None)
                     then <["enabled" := PBool true]> d else d in
            let d := if bool_decide (d !! "name" = None)
                     then <["name" := PStr (channel_placeholder (i + 1))]> d else d in
            let '(r, rest') := validate_channels (S i) rest in
            (r, PDict d :: rest')
      | _ =>
          (Raise (Exn ValueError [Txt (lit "Channel "); Num i;
                                  Txt (lit " must be a dictionary")]),
           channel :: rest)
      end
  end.

Definition _validate : L unit := λ self,
  match py_contains "channels" (_config self) with
  | Raise e => (Raise e, self)
  | Ok false =>
      (Raise (Exn ValueError [Txt (lit "Configuration must contain 'channels' key")]), self)
  | Ok true =>
      match py_getitem (_config self) "channels" with
      | Raise e => (Raise e, self)
      | Ok (PList []) =>
          (Raise (Exn ValueError [Txt (lit "At least one channel must be defined")]), self)
      | Ok (PList channels) =>
          let '(r, channels') := validate_channels 0 channels in
          (r, {| config_path := config_path self;
                 _config := match _config self with
                            | PDict d => PDict (<["channels" := PList channels']> d)
                            | c => c
                            end |})
      | Ok _ =>
          (Raise (Exn ValueError [Txt (lit "'channels' must be a list")]), self)
      end
  end.

Section ConfigLoader.
Context (E : env).

Definition load : L pyval := λ self,
  match file_text E (config_path self) with
  | None =>
      (Raise (Exn FileNotFoundError [Txt (lit "Configuration file not found: ");
                                     OfPath (config_path self)]), self)
  | Some text =>
      match yaml_safe_load E text with
      | None =>
          (Raise (Exn ValueError [Txt (lit "Invalid YAML configuration: ");
                                  OfExn (builtin YAMLError)]), self)
      | Some v =>
          let self := {| config_path := config_path self;
                         _config := py_or v (PDict ∅) |} in
          let '(r, self) := _validate self in
          (_ ← r; Ok (_config self), self)
      end
  end.

(** [if not self._config: self.load()] *)
Definition ensure_loaded : L unit := λ self,
  if negb (truthy (_config self)) then
    let '(r, self) := load self in (_ ← r; Ok tt, self)
  else (Ok tt, self).

(** The list comprehension of [get_enabled_channels]. *)
Fixpoint enabled_only (channels : list pyval) : result (list pyval) :=
  match channels with
  | [] => Ok []
  | channel :: rest =>
      enabled ← py_get channel "enabled" (PBool true);
      r ← enabled_only rest;
      Ok (if truthy enabled then channel :: r else r)
  end.

Definition get_enabled_channels : L (list pyval) := λ self,
  let '(r, self) := ensure_loaded self in
  (_ ← r;
   channels ← py_get (_config self) "channels" (PList []);
   items ← py_iter channels;
   enabled_only items, self).

Definition output_defaults : pydict :=
  <["directory" := PStr (lit "outputs")]> (
  <["filename_format" := PStr (lit "{channel_name}_videos.xlsx")]> ∅).

(** [{**defaults, **output}]: the declared keys win; only a mapping can be
    unpacked. *)
Definition get_output_settings : L pydict := λ self,
  let '(r, self) := ensure_loaded self in
  (_ ← r;
   output ← py_get (_config self) "output" (PDict ∅);
   match output with
   | PDict o => Ok (o ∪ output_defaults)
   | _ => Raise (builtin TypeError)
   end, self).

End ConfigLoader.

(* ===================================================================== *)
(** * __main__.py *)
(* ===================================================================== *)

Definition nl : pystr := [10%N].           (* the line feed *)
Definition check_mark : pystr := [10003%N]. (* U+2713 *)
Definition cross_mark : pystr := [10007%N]. (* U+2717 *)

(** [sys.exit(code)] *)
Definition sys_exit {A} (code : nat) : M A := raise (Exn SystemExit [Num code]).

Section Main.
Context (E : env).

Definition process_single_channel (channel_url : pyval)
    (output_dir : option path) (filename_format : pyval) : M unit :=
  print E [Txt (lit "Extracting videos from: "); OfVal channel_url];;
  '(videos, channel_name) ← extract E channel_url;
  print E [Txt (lit "Found "); Num (length videos);
         Txt (lit " videos from channel: "); OfVal channel_name];;
  match videos with
  | [] => print E [Txt (lit "No videos found!")]
  | _ =>
      print E [Txt (lit "Exporting to Excel...")];;
      output_path ← export E videos channel_name output_dir filename_format;
      print E [Txt check_mark; Txt (lit " Successfully exported to: "); OfPath output_path];;
      print E [Txt (lit "  Total videos: "); Num (length videos)]
  end.

(** [Path(v)] *)
Definition Path_of (v : pyval) : result path :=
  match v with
  | PStr s => Ok (Path s)
  | _ => Raise (builtin TypeError)
  end.

(** One turn of the loop of [process_config_file]: [i] counts the enabled
    channels from 1, [n] is their number. *)
Definition process_channel (output_settings : pydict) (n i : nat) (channel : pyval)
    : M unit :=
  channel_name ← lift (py_get channel "name" (PStr (channel_placeholder i)));
  channel_url ← lift (py_getitem channel "url");
  print E [Txt (lit "["); Num i; Txt (lit "/"); Num n; Txt (lit "] Processing: ");
         OfVal channel_name];;
  print E [Txt (lit "  URL: "); OfVal channel_url];;
  try_except
    ('(videos, extracted_name) ← extract E channel_url;
     declared ← lift (py_get channel "name" PNone);
     let channel_name :=
       if py_eq declared (PStr (channel_placeholder i))
       then extracted_name else channel_name in
     print E [Txt (lit "  Found "); Num (length videos); Txt (lit " videos")];;
     match videos with
     | [] => print E [Txt (lit "  No videos found, skipping..."); Txt nl]
     | _ =>
         directory ← lift (py_getitem (PDict output_settings) "directory");
         output_dir ← lift (Path_of directory);
         let filename_format := default PNone (output_settings !! "filename_format") in
         output_path ← export E videos channel_name (Some output_dir) filename_format;
         print E [Txt (lit "  "); Txt check_mark; Txt (lit " Exported to: ");
                OfPath output_path];;
         print E [Txt (lit "  Total videos: "); Num (length videos); Txt nl]
     end)
    (λ e, print_err [Txt (lit "  "); Txt cross_mark; Txt (lit " Failed: ");
                     OfExn e; Txt nl]).

Fixpoint process_channels (output_settings : pydict) (n i : nat)
    (channels : list pyval) : M unit :=
  match channels with
  | [] => mret tt
  | channel :: rest =>
      process_channel output_settings n i channel;;
      process_channels output_settings n (S i) rest
  end.

Definition process_config_file (config_path : pystr) : M unit :=
  print E [Txt (lit "Loading configuration from: "); Txt config_path];;
  let loader := ConfigLoader_init config_path in
  let '(r, loader) := load E loader in
  _ ← lift r;
  let '(r, loader) := get_enabled_channels E loader in
  channels ← lift r;
  let '(r, loader) := get_output_settings E loader in
  output_settings ← lift r;
  print E [Txt (lit "Found "); Num (length channels); Txt (lit " enabled channel(s)");
         Txt nl];;
  process_channels output_settings (length channels) 1 channels;;
  print E [Txt (lit "All channels processed!")].

Definition usage : list line :=
  [ [Txt (lit "Usage:")];
    [Txt (lit "  yt-extractor <channel_url>              # Extract from a single channel")];
    [Txt (lit "  yt-extractor --config <config.yaml>     # Extract from channels in config file")];
    [Txt nl; Txt (lit "Examples:")];
    [Txt (lit "  yt-extractor 'https://www.youtube.com/@AlexHormozi'")];
    [Txt (lit "  yt-extractor --config channels.yaml")] ].

Fixpoint print_all (ls : list line) : M unit :=
  match ls with
  | [] => mret tt
  | l :: rest => print E l;; print_all rest
  end.

(** [main()] with [sys.argv = argv]. *)
Definition main (argv : list pystr) : M unit :=
  match argv with
  | [] | [_] => print_all usage;; sys_exit 1
  | _ :: arg1 :: args =>
      λ w,
        let body : M unit :=
          if bool_decide (arg1 = lit "--config") || bool_decide (arg1 = lit "-c") then
            match args with
            | [] => print_err [Txt (lit "Error: Config file path required")];; sys_exit 1
            | config_path :: _ => process_config_file config_path
            end
          else process_single_channel (PStr arg1) None PNone in
        match body w with
        | (Raise e, w') =>
            match exn_cls e with
            | KeyboardInterrupt =>
                (print E [Txt nl; Txt nl; Txt (lit "Operation cancelled by user.")];;
                 sys_exit 130) w'
            | SystemExit => (Raise e, w')
            | _ => (print_err [Txt (lit "Error: "); OfExn e];; sys_exit 1) w'
            end
        | r => r
        end
  end.

(** The status the process ends with: 0 when [main] returns, the code of a
    [SystemExit], 1 for another exception that escapes. *)
Definition exit_status (r : result unit) : nat :=
  match r with
  | Ok _ => 0
  | Raise (Exn SystemExit [Num code]) => code
  | Raise _ => 1
  end.

End Main.

(* ===================================================================== *)
(** * The exporter over the object store *)
(* ===================================================================== *)

(** The list a caller hands to [ExcelExporter] and the records in it are
    objects the exporter shares with the caller.  Here [export] is read on a
    store of such objects, so that what it does to them can be stated. *)

Definition loc := positive.

(** The store: list objects (their items are references) and dictionary
    objects. *)
Record store := {
  lists : gmap loc (list loc);
  dicts : gmap loc pydict
}.

(** State and exception monad over the store. *)
Definition Hp (A : Type) : Type := store → result A * store.

#[global] Instance Hp_ret : MRet Hp := λ A a σ, (Ok a, σ).
#[global] Instance Hp_bind : MBind Hp := λ A B k m σ,
  match m σ with
  | (Ok a, σ') => k a σ'
  | (Raise e, σ') => (Raise e, σ')
  end.
Definition hp_lift {A} (r : result A) : Hp A := λ σ, (r, σ).

(** Reading an object.  A reference always points into the store during a
    run; a read outside it is given the interpreter's error. *)
Definition read_list (l : loc) : Hp (list loc) := λ σ,
  match lists σ !! l with
  | Some items => (Ok items, σ)
  | None => (Raise (builtin TypeError), σ)
  end.

Definition read_dict (l : loc) : Hp pydict := λ σ,
  match dicts σ !! l with
  | Some d => (Ok d, σ)
  | None => (Raise (builtin AttributeError), σ)
  end.

(** A new list object, at a location not in use. *)
Definition alloc_list (items : list loc) : Hp loc := λ σ,
  let l := fresh (dom (lists σ) ∪ dom (dicts σ)) in
  (Ok l, {| lists := <[l := items]> (lists σ); dicts := dicts σ |}).

(** [x.get(k, dflt)] on the dictionary at [x] *)
Definition obj_get (x : loc) (k : string) (dflt : pyval) : Hp pyval :=
  d ← read_dict x; mret (default dflt (d !! k)).

Fixpoint with_keys_obj (items : list loc) : Hp (list (pyval * loc)) :=
  match items with
  | [] => mret []
  | x :: rest =>
      d ← obj_get x "upload_date" PNone;
      r ← with_keys_obj rest;
      mret ((py_or d (PStr []), x) :: r)
  end.

(** [sorted(self.videos, key=..., reverse=True)]: the result is a new list
    object; the list at [videos] is read, not written. *)
Definition sorted_videos_obj (videos : loc) : Hp loc :=
  items ← read_list videos;
  keyed ← with_keys_obj items;
  s ← hp_lift (sort_desc keyed);
  alloc_list (s.*2).

Definition video_row_obj (video : loc) : Hp (list pyval) :=
  id ← obj_get video "id" (PStr []);
  title ← obj_get video "title" (PStr []);
  description ← obj_get video "description" (PStr []);
  url ← obj_get video "url" (PStr []);
  mret [id; title; description; url].

Fixpoint video_rows_obj (E : env) (videos : list loc) : Hp (list (list pyval)) :=
  match videos with
  | [] => mret []
  | v :: rest =>
      r ← video_row_obj v;
      hp_lift (ws_append E r);;
      rs ← video_rows_obj E rest;
      mret (r :: rs)
  end.

Definition build_worksheet_obj (E : env) (videos : loc) : Hp worksheet :=
  sorted_videos ← sorted_videos_obj videos;
  hp_lift (ws_append E EXCEL_COLUMNS);;
  items ← read_list sorted_videos;
  rows ← video_rows_obj E items;
  mret (fill_worksheet rows).

(** [export] of an exporter whose [self.videos] is the list object at
    [videos]. *)
Definition export_obj (E : env) (videos : loc) (channel_name : pyval)
    (output_dir : option path) (filename_format : pyval) (σ : store)
    : M path * store :=
  let '(r, σ') := build_worksheet_obj E videos σ in
  (try_except
     (ws ← lift r; save_worksheet E ws channel_name output_dir filename_format)
     (export_failed (A := path)),
   σ').

(** The store holds the list [videos] at [l]: a list of references to
    dictionaries. *)
Definition holds_videos (σ : store) (l : loc) (videos : list pyval) : Prop :=
  ∃ items, lists σ !! l = Some items ∧
    Forall2 (λ r v, ∃ d, dicts σ !! r = Some d ∧ v = PDict d) items videos.

(* ===================================================================== *)
(** * A sample environment *)
(* ===================================================================== *)

(** Concrete collaborators on which the program can be run: a backend given
    by a function of the URL, one configuration file [channels.yaml] whose
    parsed document is given, and a [str.format] that fills the two
    placeholders of the file name template. *)
Module Sample.

Fixpoint fill_template (skip : nat) (t name date : pystr) : pystr :=
  match t with
  | [] => []
  | c :: t' =>
      match skip with
      | S k => fill_template k t' name date
      | 0 =>
          if is_prefix (lit "{channel_name}") t
          then name ++ fill_template 13 t' name date
          else if is_prefix (lit "{date}") t
          then date ++ fill_template 5 t' name date
          else c :: fill_template 0 t' name date
      end
  end.

Definition mk_env (document : option pyval) (backend : pyval → result pyval) : env :=
  {| certifi_where := lit "cacert.pem";
     extract_info := λ _ _ url, backend url;
     repr_compound := λ _, lit "...";
     file_text := λ p, match p with
                       | Path s => if bool_decide (s = lit "channels.yaml")
                                   then Some (lit "channels: ...") else None
                       | _ => None
                       end;
     yaml_safe_load := λ _, document;
     today := lit "20240101";
     str_format := λ t name date, Ok (fill_template 0 t name date);
     mkdir_error := λ _, None;
     save_error := λ _, None;
     append_error := λ _, None;
     print_error := λ _, None |}.

Definition video (id : string) : pyval := PDict (<["id" := PStr (lit id)]> ∅).

Definition dated (date : string) : pyval :=
  PDict (<["upload_date" := PStr (lit date)]> ∅).

(** The entries tree [ {_type: playlist, entries: [{id: a}, {id: b}]}, {id: c} ]. *)
Definition tree : list pyval :=
  [ PDict (<["_type" := PStr (lit "playlist")]> (
           <["entries" := PList [video "a"; video "b"]]> ∅));
    video "c" ].

(** What the backend answers for the channel called [name]. *)
Definition info (name : pyval) : pyval :=
  PDict (<["channel" := name]> (<["entries" := PList tree]> ∅)).

(** A backend that fails on the URL [bad]; elsewhere it lists [tree], and
    the name of the channel is the text of its URL. *)
Definition backend (url : pyval) : result pyval :=
  if py_eq url (PStr (lit "bad")) then Raise (Exn OSError [Txt (lit "unreachable")])
  else Ok (info url).

Definition channel (url : string) : pydict := <["url" := PStr (lit url)]> ∅.

Definition config (channels : list pydict) : pyval :=
  PDict (<["channels" := PList (PDict <$> channels)]> ∅).

(** Three channels; the backend fails on the second. *)
Definition three_channels : pyval :=
  config [channel "first"; channel "bad"; channel "third"].

Definition batch_argv : list pystr := [lit "yt-extractor"; lit "--config"; lit "channels.yaml"].

(** The file names of the sheets written. *)
Definition written (w : world) : list path := (saved w).*1.

End Sample.

(* ===================================================================== *)
(** * The properties, in the words of the specification *)
(* ===================================================================== *)

(** The definitions the statements below are written with. *)

Definition underscore : N := 95%N.


Definition is_playlist (d : pydict) : bool :=
  py_eq (default PNone (d !! "_type")) (PStr (lit "playlist")).

(** The flattening as the specification words it: a null or empty entry
    gives nothing, a playlist gives its own non-null entries as they are, any
    other entry gives itself. *)
Definition expand_entry (e : pyval) : list pyval :=
  if negb (truthy e) then []
  else match e with
       | PDict d =>
           if is_playlist d then
             match d !! "entries" with
             | Some (PList subs) => filter (λ x, truthy x = true) subs
             | _ => []
             end
           else [e]
       | _ => [e]
       end.

(** An entry of a tree: null or empty, or a dictionary; the entries of a
    playlist are a list when it has any. *)
Definition tree_entry (e : pyval) : Prop :=
  truthy e = false ∨
  ∃ d, e = PDict d ∧
       (is_playlist d = true →
        d !! "entries" = None ∨ ∃ subs, d !! "entries" = Some (PList subs)).

(** The upload date as the specification words it: the upload date field if
    present, else the release timestamp field if present, else empty. *)
Definition spec_upload_date (entry : pydict) : pyval :=
  match entry !! "upload_date" with
  | Some v => v
  | None => match entry !! "release_timestamp" with
            | Some v => v
            | None => PStr []
            end
  end.

(** The record of an entry, if it is kept. *)
Definition video_of (E : env) (entry : pydict) : option pyval :=
  match entry !! "id" with
  | Some video_id =>
      if truthy video_id then
        Some (PDict (video_data E video_id
                       (default (PStr []) (entry !! "title"))
                       (default (PStr []) (entry !! "description"))
                       (spec_upload_date entry)))
      else None
  | None => None
  end.

(** [s <= t] on strings *)
Definition str_le (s t : pystr) : Prop := str_lt t s = false.

(** A video record: a dictionary whose upload date is a string, None or
    absent. *)
Definition video_record (v : pyval) : Prop :=
  ∃ d, v = PDict d ∧
       (d !! "upload_date" = None ∨ d !! "upload_date" = Some PNone ∨
        ∃ s, d !! "upload_date" = Some (PStr s)).

(** The date a record is sorted by: the empty string when it has none. *)
Definition date_of (v : pyval) : pystr :=
  match v with
  | PDict d => match d !! "upload_date" with
               | Some (PStr s) => s
               | _ => []
               end
  | _ => []
  end.

(** The row of a record. *)
Definition row_of (v : pyval) : list pyval :=
  match v with
  | PDict d => [default (PStr []) (d !! "id"); default (PStr []) (d !! "title");
                default (PStr []) (d !! "description"); default (PStr []) (d !! "url")]
  | _ => []
  end.



Definition keyed {A} (p : pystr * A) : pyval * A := (PStr p.1, p.2).

Definition key_ge {A} (p q : pystr * A) : Prop := str_le q.1 p.1.

(** The defaults [_validate] writes into the entry at index [i]. *)
Definition fill_defaults (i : nat) (d : pydict) : pydict :=
  let d := if bool_decide (d !! "enabled" = None)
           then <["enabled" := PBool true]> d else d in
  if bool_decide (d !! "name" = None)
  then <["name" := PStr (channel_placeholder (i + 1))]> d else d.

(** An entry [_validate] accepts: a mapping with a url. *)
Definition channel_ok (c : pyval) : Prop :=
  ∃ d, c = PDict d ∧ is_Some (d !! "url").

(** The enabled flag of an entry is true: the flag is there and it holds. *)
Definition enabled_flag (c : pydict) : bool :=
  match c !! "enabled" with
  | Some flag => truthy flag
  | None => false
  end.

(** A document [_validate] accepts: a channel list that is a non-empty list
    of mappings with a url. *)
Definition valid_document (d : pydict) : Prop :=
  ∃ channels, d !! "channels" = Some (PList channels) ∧ channels ≠ [] ∧
              Forall channel_ok channels.

(** Every object of [σ] is in [σ'] as it was. *)
Definition preserved (σ σ' : store) : Prop :=
  dicts σ' = dicts σ ∧ lists σ ⊆ lists σ'.

(** A computation that leaves every object as it was. *)
Definition preserving {A} (m : Hp A) : Prop := ∀ σ, preserved σ (m σ).2.

(** The record a reference stands for. *)
Definition deref (σ : store) (r : loc) : pyval :=
  match dicts σ !! r with
  | Some d => PDict d
  | None => PNone
  end.

Definition on_record {A B} (f : A → B) (p : pyval * A) : pyval * B := (p.1, f p.2).

(** A result that [except Exception] would catch if it is an exception. *)
Definition catchable {A} (r : result A) : Prop :=
  match r with
  | Ok _ => True
  | Raise e => is_Exception (exn_cls e) = true
  end.

(** The collaborators of [export] raise only what [except Exception]
    catches. *)
Definition quiet_files (E : env) : Prop :=
  (∀ t name date, catchable (str_format E t name date)) ∧
  (∀ p e, mkdir_error E p = Some e → is_Exception (exn_cls e) = true) ∧
  (∀ p e, save_error E p = Some e → is_Exception (exn_cls e) = true) ∧
  (∀ row e, append_error E row = Some e → is_Exception (exn_cls e) = true).

(** The collaborators raise only what [except Exception] catches: no
    interrupt arrives while they run. *)
Definition interrupt_free (E : env) : Prop :=
  (∀ n opts url, catchable (extract_info E n opts url)) ∧
  quiet_files E ∧
  (∀ l e, print_error E l = Some e → is_Exception (exn_cls e) = true).

(** The standard output takes every line. *)
Definition stdout_accepts (E : env) : Prop := ∀ l, print_error E l = None.

(** The world once the line [l] has been printed. *)
Definition printed (l : line) (w : world) : world :=
  {| stdout := stdout w ++ [l]; stderr := stderr w; ydl_calls := ydl_calls w;
     made_dirs := made_dirs w; saved := saved w |}.

(** The world once the line [l] has been printed on the error stream. *)
Definition reported (l : line) (w : world) : world :=
  {| stdout := stdout w; stderr := stderr w ++ [l]; ydl_calls := ydl_calls w;
     made_dirs := made_dirs w; saved := saved w |}.

(** The world once [mkdir] has made [p]. *)
Definition with_dir (p : path) (w : world) : world :=
  {| stdout := stdout w; stderr := stderr w; ydl_calls := ydl_calls w;
     made_dirs := made_dirs w ++ [p]; saved := saved w |}.

(** The world once the sheet [ws] has been saved at [p]. *)
Definition with_sheet (p : path) (ws : worksheet) (w : world) : world :=
  {| stdout := stdout w; stderr := stderr w; ydl_calls := ydl_calls w;
     made_dirs := made_dirs w; saved := saved w ++ [(p, ws)] |}.

(** The world once the backend has been called with [c]. *)
Definition called (c : options * pyval) (w : world) : world :=
  {| stdout := stdout w; stderr := stderr w; ydl_calls := ydl_calls w ++ [c];
     made_dirs := made_dirs w; saved := saved w |}.

Definition extract_failed (e : exn) : exn :=
  Exn Exception [Txt (lit "Failed to extract videos: "); OfExn e].

(** The line [process_config_file] prints for a channel that failed. *)
Definition failure_line (e : exn) : line :=
  [Txt (lit "  "); Txt cross_mark; Txt (lit " Failed: "); OfExn e; Txt nl].

(** What the extraction of [url] gives in the world [w]: the answer of the
    backend at its next call, run through the two loops. *)
Definition extraction (E : env) (w : world) (url : pyval) : result (list pyval * pyval) :=
  extract_info E (length (ydl_calls w)) (extract_options E) url ≫= extract_from_info E.

Definition url_of (c : pydict) : pyval := default PNone (c !! "url").

(** The directory [export] writes to. *)
Definition export_dir (output_dir : option path) : path :=
  match output_dir with
  | None => Join Cwd (lit "outputs")
  | Some p => p
  end.

(** The template [export] fills: the default one when none is given. *)
Definition export_template (filename_format : pyval) : result pystr :=
  match filename_format with
  | PNone => Ok (lit "{channel_name}_videos.xlsx")
  | PStr t => Ok t
  | _ => Raise (builtin AttributeError)
  end.

(** How an error leaves [export]. *)
Definition export_raise {A} (e : exn) : result A :=
  if is_Exception (exn_cls e)
  then Raise (Exn Exception [Txt (lit "Failed to export to Excel: "); OfExn e])
  else Raise e.

(** What a call of [export] comes to: the file it saves, as the expression
    of its place and the sheet, or the error it raises; and whether the
    directory had been made by then. *)
Definition export_result (E : env) (videos : list pyval) (channel_name : pyval)
    (output_dir : option path) (filename_format : pyval)
    : result (path * worksheet) * bool :=
  let dir := export_dir output_dir in
  match build_worksheet E videos with
  | Raise e => (export_raise e, false)
  | Ok ws =>
      match mkdir_error E dir with
      | Some e => (export_raise e, false)
      | None =>
          match (safe ← sanitize_channel_name channel_name;
                 template ← export_template filename_format;
                 str_format E template safe (today E)) with
          | Raise e => (export_raise e, true)
          | Ok filename =>
              match save_error E (Join dir filename) with
              | Some e => (export_raise e, true)
              | None => (Ok (Join dir filename, ws), true)
              end
          end
      end
  end.

(** The name a turn of the loop exports under, for the [i]-th enabled
    channel: the declared name, or the extracted one when the declared name
    is the text [Channel i]. *)
Definition export_name (i : nat) (c : pydict) (extracted : pyval) : pyval :=
  if py_eq (default PNone (c !! "name")) (PStr (channel_placeholder i))
  then extracted
  else default (PStr (channel_placeholder i)) (c !! "name").

(** What the extraction gives at the [m]-th call of the backend. *)
Definition extraction_at (E : env) (m : nat) (url : pyval)
    : result (list pyval * pyval) :=
  extract_info E m (extract_options E) url ≫= extract_from_info E.

(** The export of a turn of the loop, with the output settings of the
    configuration. *)
Definition turn_export (E : env) (settings : pydict) (videos : list pyval)
    (name : pyval) : result (path * worksheet) :=
  directory ← py_getitem (PDict settings) "directory";
  output_dir ← Path_of directory;
  (export_result E videos name (Some output_dir)
     (default PNone (settings !! "filename_format"))).1.

(** What the [i]-th enabled channel leaves behind when the backend is at its
    [m]-th call and the standard output takes every line: the errors
    reported on the error stream and the files saved.  A failed extraction or
    a failed export is one error and no file, a channel without videos is
    neither, and an export that returns is one file. *)
Definition turn_outcome (E : env) (settings : pydict) (m i : nat) (c : pydict)
    : list exn * list (path * worksheet) :=
  match extraction_at E m (url_of c) with
  | Raise e => ([extract_failed e], [])
  | Ok ([], _) => ([], [])
  | Ok (videos, extracted) =>
      match turn_export E settings videos (export_name i c extracted) with
      | Ok file => ([], [file])
      | Raise e => ([e], [])
      end
  end.

(** The same for the channels of a batch, in order: each channel is judged
    on its own, whatever became of the ones before it. *)
Fixpoint batch_outcome (E : env) (settings : pydict) (m i : nat)
    (channels : list pydict) : list exn * list (path * worksheet) :=
  match channels with
  | [] => ([], [])
  | c :: rest =>
      let now := turn_outcome E settings m i c in
      let later := batch_outcome E settings (S m) (S i) rest in
      (now.1 ++ later.1, now.2 ++ later.2)
  end.

(** The line [main] prints for an error it catches. *)
Definition error_line (e : exn) : line := [Txt (lit "Error: "); OfExn e].

(** [sys.exit(1)] and [sys.exit(130)] as they leave [main]. *)
Definition exit_1 : result unit := Raise (Exn SystemExit [Num 1]).
Definition exit_130 : result unit := Raise (Exn SystemExit [Num 130]).

Definition is_config_flag (arg : pystr) : Prop :=
  arg = lit "--config" ∨ arg = lit "-c".

(* ===================================================================== *)
(** * The words of the further properties *)
(* ===================================================================== *)

(** The definitions the statements of the last part of the file are written
    with. *)

(** The five keys of a video record. *)
Definition record_keys : gset string :=
  {[ "id"; "title"; "description"; "url"; "upload_date" ]}.

(** A record as [extract] builds them: the five keys, an id that holds, and
    the url made from the id. *)
Definition built_record (E : env) (v : pyval) : Prop :=
  ∃ (d : pydict) video_id,
    v = PDict d ∧ dom d = record_keys ∧
    d !! "id" = Some video_id ∧ truthy video_id = true ∧
    d !! "url" = Some (PStr (watch_url E video_id)).

(** A character [_sanitize_filename] strips at the two ends. *)
Definition edge_char (c : N) : Prop := c ∈ lit ". ".

(** A name [_sanitize_filename] has nothing to do on. *)
Definition clean_name (s : pystr) : Prop :=
  s ≠ [] ∧ (length s ≤ max_length)%nat ∧
  Forall (λ c, c ∉ invalid_chars) s ∧
  (∀ c, head s = Some c → ¬ edge_char c) ∧
  (∀ c, last s = Some c → ¬ edge_char c).

(** The fixed widths of the four columns. *)
Definition column_widths : gmap string Z :=
  {[ "A" := 15%Z; "B" := 50%Z; "C" := 80%Z; "D" := 50%Z ]}.

(** A channel entry as [load] leaves it: it has a url, a name and an enabled
    flag. *)
Definition complete_channel (c : pyval) : Prop :=
  ∃ d : pydict, c = PDict d ∧
    is_Some (d !! "url") ∧ is_Some (d !! "name") ∧ is_Some (d !! "enabled").

(** What [_validate] says of an entry it refuses. *)
Definition refusal (bad : pyval) : pystr :=
  match bad with
  | PDict _ => lit " missing required 'url' field"
  | _ => lit " must be a dictionary"
  end.

(** The lines [process_single_channel] prints. *)
Definition extracting_line (url : pyval) : line :=
  [Txt (lit "Extracting videos from: "); OfVal url].
Definition found_line (videos : list pyval) (channel_name : pyval) : line :=
  [Txt (lit "Found "); Num (length videos); Txt (lit " videos from channel: ");
   OfVal channel_name].
Definition exporting_line : line := [Txt (lit "Exporting to Excel...")].
Definition success_line (output_path : path) : line :=
  [Txt check_mark; Txt (lit " Successfully exported to: "); OfPath output_path].

(** The line [main] prints when the user interrupts the run. *)
Definition cancelled_line : line :=
  [Txt nl; Txt nl; Txt (lit "Operation cancelled by user.")].

(** A standard output whose encoding lacks the check mark: it refuses the
    lines that hold it, the other collaborators are those of [E]. *)
Definition has_check_mark (l : line) : bool :=
  existsb (λ p, match p with Txt s => bool_decide (s = check_mark) | _ => false end) l.

Definition narrow_console (E : env) : env :=
  {| certifi_where := certifi_where E;
     extract_info := extract_info E;
     repr_compound := repr_compound E;
     file_text := file_text E;
     yaml_safe_load := yaml_safe_load E;
     today := today E;
     str_format := str_format E;
     mkdir_error := mkdir_error E;
     save_error := save_error E;
     append_error := append_error E;
     print_error := λ l, if has_check_mark l then Some (builtin UnicodeEncodeError)
                         else None |}.

(** A backend the user interrupts on the URL [stop]; elsewhere it is
    [Sample.backend]. *)
Definition interrupted_backend (url : pyval) : result pyval :=
  if py_eq url (PStr (lit "stop")) then Raise (builtin KeyboardInterrupt)
  else Sample.backend url.

Ltac unfold_monads :=
  unfold mbind, mret, result_bind, result_ret, M_bind, M_ret, Hp_bind, Hp_ret,
         lift, hp_lift, raise in *.

Ltac by_decide := apply (bool_decide_unpack _); vm_compute; exact I.

(* ===================================================================== *)
(** * Sanitising a channel name *)
(* ===================================================================== *)

Lemma str_replace_fmap c s :
  str_replace c (lit "_") s = (λ x, if (x =? c)%N then underscore else x) <$> s.
Proof.
  unfold str_replace. induction s as [|x s IH]; [done|].
  csimpl. rewrite IH. by destruct (x =? c)%N.
Qed.

Lemma replace_invalid_chars s :
  foldl (λ fn char, str_replace char (lit "_") fn) s invalid_chars
  = (λ x, if bool_decide (x ∈ invalid_chars) then underscore else x) <$> s.
Proof.
  change invalid_chars with [60; 62; 58; 34; 47; 92; 124; 63; 42]%N.
  cbn [foldl]. rewrite !str_replace_fmap, <- !list_fmap_compose.
  apply list_fmap_ext. intros _ x _. unfold compose, underscore.
  repeat match goal with
  | |- context [(x =? ?c)%N] =>
      destruct (N.eqb_spec x c) as [->|?]; [by vm_compute|]
  end.
  cbn. rewrite bool_decide_eq_false_2; [done|].
  rewrite !elem_of_cons, elem_of_nil. intuition congruence.
Qed.

(* ===================================================================== *)
(** * The options handed to the backend *)
(* ===================================================================== *)

Lemma extract_calls_backend E url w :
  ydl_calls (extract E url w).2 = ydl_calls w ++ [(extract_options E, url)].
Proof.
  unfold extract, try_except, ydl_extract_info. unfold_monads. simpl.
  destruct (extract_info E _ _ _) as [info|e]; simpl.
  - destruct (extract_from_info E info) as [?|e]; simpl; [done|].
    by destruct (is_Exception _).
  - by destruct (is_Exception _).
Qed.

(** C2: the option table of every extraction call.  [extract] hands the
    backend one table per call; the table asks for the flat listing without
    download, quietly; it holds the context built from the bundled trust
    store under the key [ssl_context]; beside it, merged from
    [YT_DLP_OPTIONS], it holds the entry [no_check_certificates = True]; and
    it has no other key.  The table is all the program says about
    certificates: what the backend makes of the two entries is the
    backend's. *)
Theorem extract_options_spec E url w :
  ydl_calls (extract E url w).2 = ydl_calls w ++ [(extract_options E, url)] ∧
  extract_options E !! "ssl_context" = Some (OSslContext (certifi_where E)) ∧
  extract_options E !! "extract_flat" = Some (OStr (lit "in_playlist")) ∧
  extract_options E !! "skip_download" = Some (OBool true) ∧
  extract_options E !! "quiet" = Some (OBool true) ∧
  extract_options E !! "no_warnings" = Some (OBool true) ∧
  extract_options E !! "no_check_certificates" = Some (OBool true) ∧
  dom (extract_options E) =
    {[ "ssl_context"; "extract_flat"; "skip_download"; "quiet"; "no_warnings";
       "no_check_certificates" ]}.
Proof.
  split; [apply extract_calls_backend|].
  unfold extract_options, YT_DLP_OPTIONS.
  repeat split; by simplify_map_eq.
Qed.
(* ===================================================================== *)
(** * Flattening the entries tree *)
(* ===================================================================== *)

Lemma flatten_entries_acc entries acc :
  Forall tree_entry entries →
  flatten_entries entries acc = Ok (acc ++ (entries ≫= expand_entry)).
Proof.
  intros Hall. revert acc.
  induction Hall as [|e entries He _ IH]; intros acc.
  { by rewrite app_nil_r. }
  cbn [flatten_entries]. csimpl. unfold expand_entry at 1.
  destruct (truthy e) eqn:Htruthy; cbn [negb].
  2:{ apply IH. }
  destruct He as [He|(d & -> & Hsubs)]; [congruence|].
  unfold_monads. cbn [py_get]. fold (is_playlist d).
  destruct (is_playlist d) eqn:Hpl.
  - destruct (Hsubs eq_refl) as [Hnone|[subs Hsome]].
    + rewrite Hnone. cbn. rewrite IH. by rewrite app_nil_r.
    + rewrite Hsome. cbn. rewrite IH. by rewrite app_assoc.
  - rewrite IH. by rewrite <- app_assoc.
Qed.

(** C5: on every entries tree the first loop of [extract] opens the entries
    whose type is [playlist] one level deep, their own entries taking their
    place in order, takes every other entry as a video item, and skips null
    and empty entries; an entry found inside a playlist is not opened again. *)
Theorem flatten_entries_spec entries :
  Forall tree_entry entries →
  flatten_entries entries [] = Ok (entries ≫= expand_entry).
Proof. intros H. by rewrite flatten_entries_acc. Qed.

(** The tree of the specification flattens to the ids a, b, c in that order. *)
Lemma flatten_entries_spec_witness :
  Forall tree_entry Sample.tree ∧
  flatten_entries Sample.tree []
  = Ok [Sample.video "a"; Sample.video "b"; Sample.video "c"].
Proof.
  assert (Forall tree_entry Sample.tree) as Htree.
  { apply Forall_cons_2; [|apply Forall_cons_2; [|apply Forall_nil_2]].
    - right. eexists. split; [reflexivity|]. intros _. right. eexists. by vm_compute.
    - right. eexists. split; [reflexivity|]. by vm_compute. }
  split; [done|].
  rewrite (flatten_entries_spec Sample.tree Htree). by vm_compute.
Defined.

(* ===================================================================== *)
(** * Building the video records *)
(* ===================================================================== *)

Lemma build_videos_acc E (entries : list pydict) acc :
  build_videos E (PDict <$> entries) acc = Ok (acc ++ omap (video_of E) entries).
Proof.
  revert acc. induction entries as [|d entries IH]; intros acc.
  { by rewrite app_nil_r. }
  cbn [fmap list_fmap build_videos py_get omap list_omap]. unfold_monads.
  unfold video_of at 1, spec_upload_date.
  destruct (d !! "id") as [video_id|]; simpl.
  - destruct (truthy video_id); simpl; [|apply IH].
    rewrite IH, <- app_assoc.
    by destruct (d !! "upload_date"), (d !! "release_timestamp").
  - apply IH.
Qed.

(** C3: the second loop of [extract] drops every entry without an id, whatever
    its other fields hold (an id that is empty or None counts as none), and
    turns every other entry into one record, in order; the record's url is
    the watch-URL prefix followed by the id, and its upload date is the
    entry's upload date field if present, else its release timestamp field if
    present, else the empty string. *)
Theorem build_videos_spec E :
  (∀ entries : list pydict,
     build_videos E (PDict <$> entries) [] = Ok (omap (video_of E) entries)) ∧
  (∀ entry : pydict, entry !! "id" = None → video_of E entry = None) ∧
  (∀ (entry : pydict) video_id,
     entry !! "id" = Some video_id → truthy video_id = false →
     video_of E entry = None) ∧
  (∀ (entry : pydict) video_id,
     entry !! "id" = Some video_id → truthy video_id = true →
     ∃ record : pydict,
       video_of E entry = Some (PDict record) ∧
       record !! "id" = Some video_id ∧
       record !! "url"
         = Some (PStr (lit "https://www.youtube.com/watch?v=" ++ py_str E video_id)) ∧
       record !! "upload_date" = Some (spec_upload_date entry)).
Proof.
  split_and!.
  - intros entries. by rewrite build_videos_acc.
  - intros entry Hid. unfold video_of. by rewrite Hid.
  - intros entry video_id Hid Hfalsy. unfold video_of. by rewrite Hid, Hfalsy.
  - intros entry video_id Hid Htruthy. unfold video_of. rewrite Hid, Htruthy.
    eexists. split; [reflexivity|]. unfold video_data, watch_url.
    repeat split; by simplify_map_eq.
Qed.

(** An entry with an id and a release timestamp but no upload date, and an
    entry that has a title but no id. *)
Lemma build_videos_spec_witness :
  let E := Sample.mk_env None Sample.backend in
  let entry : pydict :=
    <["id" := PStr (lit "a")]> (<["release_timestamp" := PInt 1700000000]> ∅) in
  let untitled : pydict := <["title" := PStr (lit "no id")]> ∅ in
  build_videos E [PDict untitled; PDict entry] []
    = Ok [PDict (video_data E (PStr (lit "a")) (PStr []) (PStr []) (PInt 1700000000))] ∧
  video_of E untitled = None ∧
  ∃ record : pydict,
    video_of E entry = Some (PDict record) ∧
    record !! "id" = Some (PStr (lit "a")) ∧
    record !! "url" = Some (PStr (lit "https://www.youtube.com/watch?v=a")) ∧
    record !! "upload_date" = Some (PInt 1700000000).
Proof.
  intros E entry untitled.
  destruct (build_videos_spec E) as (Hbuild & Hdrop & _ & Hkeep).
  split; [|split].
  - etransitivity; [exact (Hbuild [untitled; entry]) | by vm_compute].
  - apply Hdrop. by vm_compute.
  - destruct (Hkeep entry (PStr (lit "a"))) as (record & ? & ? & ? & ?);
      [by vm_compute | done |].
    exists record. by repeat split.
Defined.
(* ===================================================================== *)
(** * The order of the rows *)
(* ===================================================================== *)

Lemma str_lt_irrefl s : str_lt s s = false.
Proof.
  induction s as [|a s IH]; [done|]. simpl.
  by rewrite N.ltb_irrefl, N.eqb_refl, IH.
Qed.

Lemma str_lt_trans s t u : str_lt s t = true → str_lt t u = true → str_lt s u = true.
Proof.
  revert t u. induction s as [|a s IH]; intros [|b t] [|c u]; simpl; try done.
  rewrite !orb_true_iff, !andb_true_iff, !N.ltb_lt, !N.eqb_eq.
  intros [?|[-> ?]] [?|[-> ?]]; [left; lia | by left | by left |].
  right. split; [done|]. by eapply IH.
Qed.

Lemma str_lt_trichotomy s t : str_lt s t = true ∨ s = t ∨ str_lt t s = true.
Proof.
  revert t. induction s as [|a s IH]; intros [|b t]; simpl; auto.
  rewrite !orb_true_iff, !andb_true_iff, !N.ltb_lt, !N.eqb_eq.
  destruct (N.lt_trichotomy a b) as [?|[->|?]]; [auto| |auto].
  destruct (IH t) as [?|[->|?]]; auto.
Qed.

Lemma str_lt_asym s t : str_lt s t = true → str_lt t s = false.
Proof.
  intros Hst. destruct (str_lt t s) eqn:Hts; [|done].
  by rewrite <- (str_lt_irrefl s), (str_lt_trans s t s).
Qed.

Lemma str_le_trans s t u : str_le s t → str_le t u → str_le s u.
Proof.
  unfold str_le. intros Hts Hut. destruct (str_lt u s) eqn:Hus; [|done].
  destruct (str_lt_trichotomy u t) as [H|[->|H]]; [congruence..|].
  by rewrite (str_lt_trans t u s) in Hts.
Qed.



Lemma insert_desc_keyed {A} k (x : A) (l : list (pystr * A)) :
  ∃ l', insert_desc (PStr k) x (keyed <$> l) = Ok (keyed <$> l') ∧
        l' ≡ₚ (k, x) :: l ∧
        (StronglySorted key_ge l → StronglySorted key_ge l').
Proof.
  induction l as [|[k' y] l (l' & Hins & Hperm & Hsorted)].
  { exists [(k, x)]. repeat split; [done|]. intros _. repeat constructor. }
  cbn [fmap list_fmap insert_desc keyed fst snd py_lt]. unfold_monads.
  destruct (str_lt k k') eqn:Hlt.
  - rewrite Hins.
    exists ((k', y) :: l'). split; [done|]. split.
    { by rewrite Hperm, Permutation_swap. }
    intros [Hl Hall]%StronglySorted_inv. constructor; [by apply Hsorted|].
    rewrite Hperm. constructor; [|done].
    unfold key_ge, str_le; simpl. by apply str_lt_asym.
  - exists ((k, x) :: (k', y) :: l). repeat split; [done|].
    intros Hl. constructor; [done|].
    apply StronglySorted_inv in Hl as [_ Hall].
    constructor; [done|].
    eapply Forall_impl; [exact Hall|]. intros [kz z]. unfold key_ge; simpl.
    intros Hz. by apply (str_le_trans _ k').
Qed.

Lemma sort_desc_keyed {A} (l : list (pystr * A)) :
  ∃ l', sort_desc (keyed <$> l) = Ok (keyed <$> l') ∧ l' ≡ₚ l ∧
        StronglySorted key_ge l'.
Proof.
  induction l as [|[k x] l (l' & Hsort & Hperm & Hsorted)].
  { exists []. repeat split; [done|constructor]. }
  cbn [fmap list_fmap sort_desc keyed fst snd]. unfold_monads.
  fold (keyed (A:=A)). rewrite Hsort.
  destruct (insert_desc_keyed k x l') as (l'' & -> & Hperm' & Hsorted').
  exists l''. repeat split; [|by apply Hsorted'].
  by rewrite Hperm', Hperm.
Qed.

Lemma with_keys_records videos :
  Forall video_record videos →
  with_keys videos = Ok (keyed <$> ((λ v, (date_of v, v)) <$> videos)).
Proof.
  induction 1 as [|v videos (d & -> & Hdate) _ IH]; [done|].
  cbn [with_keys fmap list_fmap]. unfold_monads. rewrite IH.
  unfold sort_key, keyed, date_of; simpl.
  destruct Hdate as [->|[->|[s ->]]]; simpl; try done.
  by destruct s.
Qed.






(* ===================================================================== *)
(** * What a call of [export] comes to *)
(* ===================================================================== *)

(** [export] in one piece: its result and the world it leaves are those of
    [export_result]. *)
Lemma export_run E videos channel_name output_dir filename_format w :
  export E videos channel_name output_dir filename_format w
  = match export_result E videos channel_name output_dir filename_format with
    | (Ok (p, ws), _) => (Ok p, with_sheet p ws (with_dir (export_dir output_dir) w))
    | (Raise e, made) =>
        (Raise e, if made : bool then with_dir (export_dir output_dir) w else w)
    end.
Proof.
  unfold export, try_except, save_worksheet, mkdir, wb_save, export_failed,
    export_result, export_raise.
  unfold_monads. fold (export_dir output_dir).
  destruct (build_worksheet E videos) as [ws|e]; [|by destruct (is_Exception _)].
  cbn zeta. destruct (mkdir_error E _) as [e|]; [by destruct (is_Exception _)|].
  fold (with_dir (export_dir output_dir) w).
  destruct (sanitize_channel_name channel_name) as [safe|e];
    [|by destruct (is_Exception _)].
  unfold format_filename.
  destruct filename_format as [| | |t| |]; cbn [export_template];
    try (by cbn [exn_cls builtin is_Exception]).
  - destruct (str_format E _ safe (today E)) as [filename|e];
      [|by destruct (is_Exception _)].
    destruct (save_error E _) as [e|]; [by destruct (is_Exception _)|]. done.
  - destruct (str_format E t safe (today E)) as [filename|e];
      [|by destruct (is_Exception _)].
    destruct (save_error E _) as [e|]; [by destruct (is_Exception _)|]. done.
Qed.




(** Outside the records of the specification: [extract] gives a record an
    integer date when the backend has a release timestamp only.  Integer
    dates are sorted greatest first among themselves; next to a string date
    the comparison raises, and so does the sort. *)
Lemma sorted_videos_integer_dates :
  let stamped z := PDict (<["upload_date" := PInt z]> ∅) in
  sorted_videos [stamped 5%Z; stamped 9%Z] = Ok [stamped 9%Z; stamped 5%Z] ∧
  sorted_videos [stamped 5%Z; Sample.dated "20230101"] = Raise (builtin TypeError).
Proof. by vm_compute. Qed.
(* ===================================================================== *)
(** * Validation of the configuration *)
(* ===================================================================== *)

#[local] Instance channel_ok_dec c : Decision (channel_ok c).
Proof.
  destruct c as [| | | | |d]; try (right; by intros (? & ? & ?)).
  destruct (d !! "url") as [u|] eqn:Hurl.
  - left. exists d. by rewrite Hurl.
  - right. intros (d' & [= <-] & [? ?]). congruence.
Defined.

Lemma fill_defaults_lookup i d :
  fill_defaults i d !! "name"
    = Some (default (PStr (channel_placeholder (i + 1))) (d !! "name")) ∧
  fill_defaults i d !! "enabled" = Some (default (PBool true) (d !! "enabled")) ∧
  ∀ k, k ≠ "name" → k ≠ "enabled" → fill_defaults i d !! k = d !! k.
Proof.
  unfold fill_defaults.
  destruct (d !! "enabled") as [e|] eqn:He, (d !! "name") as [n|] eqn:Hn;
    repeat (case_bool_decide; simplify_map_eq; try done);
    repeat split; intros; by simplify_map_eq.
Qed.

Lemma validate_channels_ok i (old : list pydict) :
  Forall (λ d, is_Some (d !! "url")) old →
  validate_channels i (PDict <$> old)
  = (Ok tt, PDict <$> imap (λ j, fill_defaults (i + j)) old).
Proof.
  intros Hall. revert i. induction Hall as [|d old [u Hu] _ IH]; intros i; [done|].
  cbn [fmap list_fmap validate_channels imap].
  rewrite (bool_decide_eq_false_2 (d !! "url" = None)) by congruence.
  rewrite IH. rewrite Nat.add_0_r. do 3 f_equal.
  apply imap_ext. intros j ? _. simpl. f_equal. lia.
Qed.

Lemma validate_channels_inv i channels :
  (∃ old, channels = PDict <$> old ∧ Forall (λ d, is_Some (d !! "url")) old) ∨
  (¬ Forall channel_ok channels ∧
   ∃ msg, (validate_channels i channels).1 = Raise (Exn ValueError msg)).
Proof.
  revert i. induction channels as [|c channels IH]; intros i.
  { left. by exists []. }
  destruct (decide (channel_ok c)) as [(d & -> & Hurl)|Hbad].
  - destruct (IH (S i)) as [(old & -> & Hold)|(Hnot & msg & Hmsg)].
    + left. exists (d :: old). split; [done|]. by constructor.
    + right. split.
      { intros [_ ?]%Forall_cons. done. }
      exists msg. cbn [validate_channels].
      rewrite (bool_decide_eq_false_2 (d !! "url" = None))
        by (destruct Hurl; congruence).
      by destruct (validate_channels (S i) channels).
  - right. split.
    { intros [? _]%Forall_cons. done. }
    destruct c as [| | | | |d]; try (eexists; reflexivity).
    cbn [validate_channels]. case_bool_decide as Hurl; [eexists; reflexivity|].
    destruct Hbad. exists d. split; [done|].
    by destruct (d !! "url").
Qed.

Lemma truthy_dict_insert k v (d : pydict) : truthy (PDict (<[k := v]> d)) = true.
Proof.
  simpl. destruct (map_to_list _) eqn:Hl; [|done].
  apply map_to_list_empty_iff in Hl. by apply insert_non_empty in Hl.
Qed.

Lemma enabled_only_dicts (channels : list pydict) :
  enabled_only (PDict <$> channels)
  = Ok (PDict <$> filter (λ c, truthy (default (PBool true) (c !! "enabled")) = true)
                         channels).
Proof.
  induction channels as [|c channels IH]; [done|].
  cbn [fmap list_fmap enabled_only py_get]. unfold_monads. rewrite IH.
  rewrite filter_cons. by case_decide as H; [rewrite H | apply not_true_is_false in H; rewrite H].
Qed.

Lemma list_filter_ext_Forall {A} (P Q : A → Prop)
    `{!∀ x, Decision (P x), !∀ x, Decision (Q x)} (l : list A) :
  Forall (λ x, P x ↔ Q x) l → filter P l = filter Q l.
Proof.
  induction 1 as [|x l Hx _ IH]; [done|]. rewrite !filter_cons, IH.
  destruct (decide (P x)), (decide (Q x)); tauto.
Qed.

(** What [_validate] leaves behind when it returns. *)
Lemma validate_ok_inv self self' :
  _validate self = (Ok tt, self') →
  ∃ (d : pydict) (old : list pydict),
    _config self = PDict d ∧
    d !! "channels" = Some (PList (PDict <$> old)) ∧
    old ≠ [] ∧
    Forall (λ c, is_Some (c !! "url")) old ∧
    self' = {| config_path := config_path self;
               _config := PDict (<["channels" :=
                   PList (PDict <$> imap fill_defaults old)]> d) |}.
Proof.
  unfold _validate.
  destruct (_config self) as [| | |s|l|d] eqn:Hcfg; simpl; try done.
  - by destruct (is_substring _ _).
  - by destruct (existsb _ _).
  - destruct (d !! "channels") as [channels|] eqn:Hch; simpl; [|done].
    destruct channels as [| | | |channels|]; try done.
    destruct channels as [|c channels]; [done|].
    destruct (validate_channels_inv 0 (c :: channels))
      as [(old & Hold & Hurl)|(_ & msg & Hmsg)].
    + rewrite Hold, (validate_channels_ok 0 old Hurl). intros [= <-].
      exists d, old. repeat split; try done.
      * by rewrite <- Hold.
      * by destruct old.
    + destruct (validate_channels 0 (c :: channels)) as [r ?].
      simpl in Hmsg. subst r. done.
Qed.

Lemma get_enabled_channels_validated E path (d : pydict) (old : list pydict) :
  let self' := {| config_path := path;
                  _config := PDict (<["channels" :=
                      PList (PDict <$> imap fill_defaults old)]> d) |} in
  get_enabled_channels E self'
  = (Ok (PDict <$> filter (λ c, enabled_flag c = true) (imap fill_defaults old)), self').
Proof.
  intros self'. unfold get_enabled_channels, ensure_loaded, self'. cbn [_config].
  rewrite truthy_dict_insert. cbn [negb py_get]. unfold_monads.
  cbn [_config py_get]. rewrite lookup_insert_eq. cbn [default from_option id py_iter].
  rewrite enabled_only_dicts.
  do 3 f_equal. apply list_filter_ext_Forall.
  apply Forall_forall. intros c [i Hc]%list_elem_of_lookup_1.
  apply list_lookup_imap_Some in Hc as (c0 & _ & ->).
  unfold enabled_flag.
  by destruct (fill_defaults_lookup i c0) as (_ & -> & _).
Qed.



(* ===================================================================== *)
(** * The errors of [load] *)
(* ===================================================================== *)

(** When the file is there and parses to a mapping (or to an empty
    document), [load] returns the configuration if the document is valid and
    raises [ValueError] otherwise. *)
Lemma load_mapping E self text v d :
  file_text E (config_path self) = Some text →
  yaml_safe_load E text = Some v →
  py_or v (PDict ∅) = PDict d →
  (valid_document d ∧ ∃ self', load E self = (Ok (_config self'), self')) ∨
  (¬ valid_document d ∧ ∃ msg, (load E self).1 = Raise (Exn ValueError msg)).
Proof.
  intros Hfile Hyaml Hdoc. unfold load. rewrite Hfile, Hyaml, Hdoc.
  unfold _validate. cbn [_config py_contains py_getitem config_path].
  destruct (d !! "channels") as [channels|] eqn:Hch; simpl.
  2:{ right. split; [|by eexists]. intros (? & ? & _). congruence. }
  assert (∀ P : Prop, (∀ l, channels = PList l → P) →
            valid_document d → P) as Hinv.
  { intros P HP (l & Hl & _). apply (HP l). congruence. }
  destruct channels as [| | | |channels|];
    try (right; split; [intros Hv; by apply (Hinv False) | by eexists]).
  destruct channels as [|c channels].
  { right. split; [|by eexists]. intros (l & Hl & Hne & _). congruence. }
  destruct (validate_channels_inv 0 (c :: channels))
    as [(old & Hold & Hurl)|(Hnot & msg & Hmsg)].
  - left. split.
    + exists (c :: channels). split; [done|]. split; [done|]. rewrite Hold.
      apply Forall_fmap. eapply Forall_impl; [exact Hurl|].
      intros cd ?. by exists cd.
    + rewrite Hold, (validate_channels_ok 0 old Hurl). by eexists.
  - right. split.
    + intros (l & Hl & _ & Hall). apply Hnot. congruence.
    + exists msg. destruct (validate_channels 0 (c :: channels)) as [r ?].
      simpl in *. by subst r.
Qed.

Lemma load_not_found E self :
  file_text E (config_path self) = None →
  (load E self).1
  = Raise (Exn FileNotFoundError [Txt (lit "Configuration file not found: ");
                                  OfPath (config_path self)]).
Proof. intros Hfile. unfold load. by rewrite Hfile. Qed.

Lemma load_parse_error E self text :
  file_text E (config_path self) = Some text →
  yaml_safe_load E text = None →
  (load E self).1
  = Raise (Exn ValueError [Txt (lit "Invalid YAML configuration: ");
                           OfExn (builtin YAMLError)]).
Proof. intros Hfile Hyaml. unfold load. by rewrite Hfile, Hyaml. Qed.

(** C8 at a configuration file whose document is the integer 42: the channel
    list key is missing, and [load] raises [TypeError], which is none of the
    three errors of the loader; [main] reports it and exits with status 1. *)
Theorem load_integer_document :
  let E := Sample.mk_env (Some (PInt 42)) Sample.backend in
  (load E (ConfigLoader_init (lit "channels.yaml"))).1 = Raise (builtin TypeError) ∧
  (exit_status (main E Sample.batch_argv world0).1 = 1 ∧
   stderr (main E Sample.batch_argv world0).2
   = [[Txt (lit "Error: "); OfExn (builtin TypeError)]]).
Proof. by vm_compute. Qed.
(* ===================================================================== *)
(** * What [export] does to the caller's objects *)
(* ===================================================================== *)

#[local] Instance preserved_refl : Reflexive preserved.
Proof. by intros σ. Qed.

#[local] Instance preserved_trans : Transitive preserved.
Proof. intros σ1 σ2 σ3 [? ?] [? ?]. split; [congruence | by etrans]. Qed.

Lemma preserving_ret {A} (a : A) : preserving (mret a).
Proof. by intros σ. Qed.

Lemma preserving_lift {A} (r : result A) : preserving (hp_lift r).
Proof. by intros σ. Qed.

Lemma preserving_bind {A B} (m : Hp A) (k : A → Hp B) :
  preserving m → (∀ a, preserving (k a)) → preserving (m ≫= k).
Proof.
  intros Hm Hk σ. unfold mbind, Hp_bind. specialize (Hm σ).
  destruct (m σ) as [[a|e] σ']; [|done]. etrans; [exact Hm | apply Hk].
Qed.

Lemma preserving_read_list l : preserving (read_list l).
Proof. intros σ. unfold read_list. by destruct (lists σ !! l). Qed.

Lemma preserving_read_dict l : preserving (read_dict l).
Proof. intros σ. unfold read_dict. by destruct (dicts σ !! l). Qed.

Lemma alloc_list_fresh σ :
  lists σ !! fresh (dom (lists σ) ∪ dom (dicts σ)) = None.
Proof.
  apply not_elem_of_dom. intros Hin.
  apply (is_fresh (dom (lists σ) ∪ dom (dicts σ))). set_solver.
Qed.

Lemma preserving_alloc_list items : preserving (alloc_list items).
Proof.
  intros σ. split; [done|]. simpl. apply insert_subseteq, alloc_list_fresh.
Qed.

Lemma preserving_obj_get x k dflt : preserving (obj_get x k dflt).
Proof.
  apply preserving_bind; [apply preserving_read_dict|]. intros d. apply preserving_ret.
Qed.

Lemma preserving_with_keys_obj items : preserving (with_keys_obj items).
Proof.
  induction items as [|x items IH]; [apply preserving_ret|].
  cbn [with_keys_obj].
  apply preserving_bind; [apply preserving_obj_get|]. intros d.
  apply preserving_bind; [exact IH|]. intros r. apply preserving_ret.
Qed.

Lemma preserving_video_rows_obj E items : preserving (video_rows_obj E items).
Proof.
  induction items as [|x items IH]; [apply preserving_ret|].
  cbn [video_rows_obj]. apply preserving_bind.
  { unfold video_row_obj.
    repeat (apply preserving_bind; [apply preserving_obj_get|]; intros ?).
    apply preserving_ret. }
  intros r. apply preserving_bind; [apply preserving_lift|]. intros _.
  apply preserving_bind; [exact IH|]. intros rs. apply preserving_ret.
Qed.

Lemma preserving_build_worksheet_obj E videos :
  preserving (build_worksheet_obj E videos).
Proof.
  unfold build_worksheet_obj, sorted_videos_obj.
  repeat first
    [ apply preserving_bind; [|intros ?]
    | apply preserving_read_list | apply preserving_with_keys_obj
    | apply preserving_lift | apply preserving_alloc_list
    | apply preserving_video_rows_obj | apply preserving_ret ].
Qed.

Lemma Forall2_deref σ items videos :
  Forall2 (λ r v, ∃ d, dicts σ !! r = Some d ∧ v = PDict d) items videos ↔
  videos = deref σ <$> items ∧ Forall (λ r, is_Some (dicts σ !! r)) items.
Proof.
  split.
  - induction 1 as [|r v items videos (d & Hd & ->) _ [-> ?]]; [done|].
    split; [|constructor; [by exists d|done]].
    cbn [fmap list_fmap]. f_equal. unfold deref. by rewrite Hd.
  - intros [-> H]. induction H as [|r items [d Hd] _ IH]; [constructor|].
    constructor; [|done]. exists d. unfold deref. by rewrite Hd.
Qed.

Lemma holds_videos_deref σ l videos :
  holds_videos σ l videos ↔
  ∃ items, lists σ !! l = Some items ∧ videos = deref σ <$> items ∧
           Forall (λ r, is_Some (dicts σ !! r)) items.
Proof.
  unfold holds_videos. by setoid_rewrite Forall2_deref.
Qed.

Lemma holds_videos_preserved σ σ' l videos :
  preserved σ σ' → holds_videos σ l videos → holds_videos σ' l videos.
Proof.
  intros [Hd Hl] (items & Hitems & Hall). exists items. rewrite Hd. split; [|done].
  by eapply lookup_weaken.
Qed.

(** Sorting references by the keys of their records is sorting the records. *)
Lemma insert_desc_fmap {A B} (f : A → B) k x (l : list (pyval * A)) :
  insert_desc k (f x) (on_record f <$> l)
  = match insert_desc k x l with
    | Ok r => Ok (on_record f <$> r)
    | Raise e => Raise e
    end.
Proof.
  induction l as [|[k' y] l IH]; [done|].
  cbn [fmap list_fmap insert_desc on_record fst snd]. unfold_monads.
  destruct (py_lt k k') as [[]|]; try done.
  rewrite IH. by destruct (insert_desc k x l).
Qed.

Lemma sort_desc_fmap {A B} (f : A → B) (l : list (pyval * A)) :
  sort_desc (on_record f <$> l)
  = match sort_desc l with
    | Ok r => Ok (on_record f <$> r)
    | Raise e => Raise e
    end.
Proof.
  induction l as [|[k x] l IH]; [done|].
  cbn [fmap list_fmap sort_desc on_record fst snd]. unfold_monads.
  rewrite IH. destruct (sort_desc l) as [r|]; [|done].
  apply insert_desc_fmap.
Qed.

Lemma hp_bind_ok {A B} (m : Hp A) (k : A → Hp B) σ a σ' :
  m σ = (Ok a, σ') → (m ≫= k) σ = k a σ'.
Proof. intros Hm. unfold mbind, Hp_bind. by rewrite Hm. Qed.

Lemma hp_bind_raise {A B} (m : Hp A) (k : A → Hp B) σ e σ' :
  m σ = (Raise e, σ') → (m ≫= k) σ = (Raise e, σ').
Proof. intros Hm. unfold mbind, Hp_bind. by rewrite Hm. Qed.

Lemma obj_get_deref σ r d k dflt :
  dicts σ !! r = Some d → obj_get r k dflt σ = (Ok (default dflt (d !! k)), σ).
Proof. intros Hd. unfold obj_get, read_dict. unfold_monads. by rewrite Hd. Qed.

Lemma with_keys_obj_deref σ items :
  Forall (λ r, is_Some (dicts σ !! r)) items →
  ∃ keyed_items,
    with_keys_obj items σ = (Ok keyed_items, σ) ∧
    with_keys (deref σ <$> items) = Ok (on_record (deref σ) <$> keyed_items).
Proof.
  induction 1 as [|r items [d Hd] _ (keyed_items & Hobj & Hval)].
  { by exists []. }
  assert (deref σ r = PDict d) as Hr by (unfold deref; by rewrite Hd).
  cbn [with_keys_obj with_keys fmap list_fmap].
  erewrite hp_bind_ok by (by apply obj_get_deref).
  erewrite hp_bind_ok by done.
  eexists. split; [done|].
  rewrite Hr, Hval. unfold sort_key. unfold_monads. cbn [py_get].
  cbn [fmap list_fmap]. unfold on_record at 2. cbn [fst snd]. by rewrite Hr.
Qed.

Lemma video_rows_obj_deref E σ items :
  Forall (λ r, is_Some (dicts σ !! r)) items →
  video_rows_obj E items σ = (video_rows E (deref σ <$> items), σ).
Proof.
  induction 1 as [|r items [d Hd] _ IH]; [done|].
  assert (deref σ r = PDict d) as Hr by (unfold deref; by rewrite Hd).
  cbn [video_rows_obj video_rows fmap list_fmap]. unfold video_row_obj.
  rewrite Hr. unfold video_row. cbn [py_get].
  erewrite (hp_bind_ok (_ ≫= _)).
  2:{ repeat (erewrite hp_bind_ok by (by apply obj_get_deref)). done. }
  unfold_monads. destruct (ws_append E _) as [[]|e]; [|done].
  rewrite IH. by destruct (video_rows E _).
Qed.

Lemma insert_desc_perm {A} k (x : A) l l' :
  insert_desc k x l = Ok l' → l' ≡ₚ (k, x) :: l.
Proof.
  revert l'. induction l as [|[k' y] l IH]; intros l'; cbn [insert_desc]; unfold_monads.
  { by intros [= <-]. }
  destruct (py_lt k k') as [[]|]; [| |done].
  - destruct (insert_desc k x l) as [r|]; [|done]. intros [= <-].
    by rewrite (IH r), Permutation_swap.
  - by intros [= <-].
Qed.

Lemma sort_desc_perm {A} (l l' : list (pyval * A)) :
  sort_desc l = Ok l' → l' ≡ₚ l.
Proof.
  revert l'. induction l as [|[k x] l IH]; intros l'; cbn [sort_desc]; unfold_monads.
  { by intros [= <-]. }
  destruct (sort_desc l) as [r|]; [|done].
  intros ->%insert_desc_perm. by rewrite (IH r).
Qed.

Lemma with_keys_obj_refs σ items keyed_items σ' :
  with_keys_obj items σ = (Ok keyed_items, σ') → keyed_items.*2 = items.
Proof.
  revert σ keyed_items σ'. induction items as [|x items IH]; intros σ keyed_items σ'.
  { by intros [= <- _]. }
  cbn [with_keys_obj]. unfold mbind at 1, Hp_bind.
  destruct (obj_get x _ _ σ) as [[d|] σ1]; [|done].
  unfold mbind at 1, Hp_bind.
  destruct (with_keys_obj items σ1) as [[r|] σ2] eqn:Hrest; [|done].
  intros [= <- _]. cbn [fmap list_fmap snd]. f_equal. by eapply IH.
Qed.

Lemma build_worksheet_obj_deref E σ l videos :
  holds_videos σ l videos →
  (build_worksheet_obj E l σ).1 = build_worksheet E videos.
Proof.
  intros (items & Hl & -> & Hall)%holds_videos_deref.
  destruct (with_keys_obj_deref σ items Hall) as (keyed_items & Hkobj & Hkval).
  assert (read_list l σ = (Ok items, σ)) as Hread.
  { unfold read_list. by rewrite Hl. }
  unfold build_worksheet, sorted_videos. rewrite Hkval.
  unfold mbind, result_bind. rewrite sort_desc_fmap.
  unfold build_worksheet_obj, sorted_videos_obj.
  destruct (sort_desc keyed_items) as [sorted|e] eqn:Hsort.
  - set (σ1 := {| lists := <[fresh (dom (lists σ) ∪ dom (dicts σ)) := sorted.*2]> (lists σ);
                  dicts := dicts σ |}).
    erewrite (hp_bind_ok (_ ≫= _) _ σ _ σ1).
    2:{ erewrite hp_bind_ok by exact Hread.
        erewrite hp_bind_ok by exact Hkobj.
        erewrite hp_bind_ok by (unfold hp_lift; by rewrite Hsort). done. }
    unfold mbind at 1, Hp_bind, hp_lift at 1.
    destruct (ws_append E EXCEL_COLUMNS) as [[]|e]; [|done].
    erewrite hp_bind_ok.
    2:{ unfold read_list, σ1. cbn [lists]. by rewrite lookup_insert_eq. }
    unfold mbind at 1, Hp_bind. rewrite video_rows_obj_deref.
    2:{ apply sort_desc_perm in Hsort. apply with_keys_obj_refs in Hkobj.
        rewrite Hsort, Hkobj. done. }
    fold σ1.
    assert (deref σ1 <$> sorted.*2 = (on_record (deref σ) <$> sorted).*2) as ->.
    { rewrite <- !list_fmap_compose. by apply list_fmap_ext. }
    unfold_monads. by destruct (video_rows E _).
  - erewrite (hp_bind_raise (_ ≫= _) _ σ e σ); [done|].
    erewrite hp_bind_ok by exact Hread.
    erewrite hp_bind_ok by exact Hkobj.
    unfold mbind, Hp_bind, hp_lift. by rewrite Hsort.
Qed.

(** C10: [export] leaves its input as it was.  Whatever it returns or raises,
    every dictionary of the store is unchanged and every list of the store
    still has the same items in the same order, the sorted list being a new
    object; so the list of records the caller holds is the same before and
    after, and what [export] computes is what it computes from the records. *)
Theorem export_preserves_videos E l channel_name output_dir filename_format σ videos :
  holds_videos σ l videos →
  let σ' := (export_obj E l channel_name output_dir filename_format σ).2 in
  dicts σ' = dicts σ ∧
  (∀ l' items, lists σ !! l' = Some items → lists σ' !! l' = Some items) ∧
  holds_videos σ' l videos ∧
  ∀ w, (export_obj E l channel_name output_dir filename_format σ).1 w
       = export E videos channel_name output_dir filename_format w.
Proof.
  intros Hvideos σ'.
  assert (preserved σ σ') as Hpre.
  { unfold σ', export_obj. pose proof (preserving_build_worksheet_obj E l σ) as H.
    by destruct (build_worksheet_obj E l σ). }
  split; [apply Hpre|]. split; [|split].
  - intros l' items Hl'. destruct Hpre as [_ Hsub]. by eapply lookup_weaken.
  - by eapply holds_videos_preserved.
  - intros w. unfold export_obj, export.
    pose proof (build_worksheet_obj_deref E σ l videos Hvideos) as Hws.
    destruct (build_worksheet_obj E l σ) as [r σ1]. simpl in Hws. by subst r.
Qed.

(** A store with two records and the list of them. *)
Lemma export_preserves_videos_witness :
  let E := Sample.mk_env None Sample.backend in
  let old : pydict := <["id" := PStr (lit "a")]> (<["upload_date" := PStr (lit "20230101")]> ∅) in
  let new : pydict := <["id" := PStr (lit "b")]> (<["upload_date" := PStr (lit "20240101")]> ∅) in
  let σ := {| lists := {[ 1%positive := [2; 3]%positive ]};
              dicts := {[ 2%positive := old; 3%positive := new ]} |} in
  let σ' := (export_obj E 1%positive (PStr (lit "Test")) None PNone σ).2 in
  holds_videos σ 1%positive [PDict old; PDict new] ∧
  dicts σ' = dicts σ ∧
  (∀ l' items, lists σ !! l' = Some items → lists σ' !! l' = Some items) ∧
  holds_videos σ' 1%positive [PDict old; PDict new] ∧
  ∀ w, (export_obj E 1%positive (PStr (lit "Test")) None PNone σ).1 w
       = export E [PDict old; PDict new] (PStr (lit "Test")) None PNone w.
Proof.
  intros E old new σ σ'.
  assert (holds_videos σ 1%positive [PDict old; PDict new]) as Hvideos.
  { exists [2; 3]%positive. split; [done|].
    repeat constructor; eexists; (split; [|reflexivity]); by vm_compute. }
  split; [done|].
  exact (export_preserves_videos E 1%positive (PStr (lit "Test")) None PNone σ _ Hvideos).
Defined.
(* ===================================================================== *)
(** * Which exceptions the program's own code raises *)
(* ===================================================================== *)

Lemma catchable_bind {A B} (r : result A) (k : A → result B) :
  catchable r → (∀ a, catchable (k a)) → catchable (r ≫= k).
Proof. destruct r; [intros _ Hk; apply Hk | done]. Qed.

Lemma catchable_py_get v k dflt : catchable (py_get v k dflt).
Proof. by destruct v. Qed.

Lemma catchable_py_iter v : catchable (py_iter v).
Proof. by destruct v. Qed.

Lemma catchable_py_lt : ∀ a b, catchable (py_lt a b).
Proof.
  fix IH 1. intros [|b1|z1|s1|xs|d1] b;
    [clear IH; by destruct b as [|[]| | | |]..| |clear IH; by destruct b].
  destruct b as [| | | |ys|]; [clear IH; done..| |clear IH; done]. simpl.
  revert ys. induction xs as [|x xs IHxs]; intros [|y ys]; [clear IH; done..|].
  destruct (py_eq x y); [apply IHxs | apply IH].
Qed.

Lemma catchable_insert_desc {A} k (x : A) l : catchable (insert_desc k x l).
Proof.
  induction l as [|[k' y] l IH]; [done|]. cbn [insert_desc].
  apply catchable_bind; [apply catchable_py_lt|]. intros [|]; [|done].
  apply catchable_bind; [exact IH | done].
Qed.

Lemma catchable_sort_desc {A} (l : list (pyval * A)) : catchable (sort_desc l).
Proof.
  induction l as [|[k x] l IH]; [done|]. cbn [sort_desc].
  apply catchable_bind; [exact IH|]. intros r. apply catchable_insert_desc.
Qed.

Lemma catchable_with_keys videos : catchable (with_keys videos).
Proof.
  induction videos as [|v videos IH]; [done|]. cbn [with_keys].
  apply catchable_bind.
  { apply catchable_bind; [apply catchable_py_get | done]. }
  intros k. apply catchable_bind; [exact IH | done].
Qed.

Lemma catchable_ws_append E row : quiet_files E → catchable (ws_append E row).
Proof.
  intros (_ & _ & _ & Happend). unfold ws_append.
  destruct (append_error E row) as [e|] eqn:Hrow; [by eapply Happend | done].
Qed.

Lemma catchable_video_rows E videos :
  quiet_files E → catchable (video_rows E videos).
Proof.
  intros Hquiet. induction videos as [|v videos IH]; [done|]. cbn [video_rows].
  apply catchable_bind.
  { unfold video_row.
    repeat (apply catchable_bind; [apply catchable_py_get|]; intros ?). done. }
  intros r. apply catchable_bind; [by apply catchable_ws_append|]. intros _.
  apply catchable_bind; [exact IH | done].
Qed.

Lemma catchable_build_worksheet E videos :
  quiet_files E → catchable (build_worksheet E videos).
Proof.
  intros Hquiet. unfold build_worksheet, sorted_videos.
  repeat first
    [ apply catchable_bind; [|intros ?]
    | apply catchable_with_keys | apply catchable_sort_desc
    | by apply catchable_ws_append
    | by apply catchable_video_rows | done ].
Qed.

Lemma catchable_export_raise {A} (e : exn) :
  is_Exception (exn_cls e) = true → catchable (export_raise (A := A) e).
Proof. unfold export_raise. by intros ->. Qed.

(** With quiet collaborators, [export] raises only what [except Exception]
    catches. *)
Lemma catchable_export_result E videos channel_name output_dir filename_format :
  quiet_files E →
  catchable (export_result E videos channel_name output_dir filename_format).1.
Proof.
  intros Hquiet. pose proof Hquiet as (Hformat & Hmkdir & Hsave & _).
  unfold export_result.
  pose proof (catchable_build_worksheet E videos Hquiet) as Hws.
  destruct (build_worksheet E videos) as [ws|e]; [|by apply catchable_export_raise].
  cbn zeta. destruct (mkdir_error E _) as [e|] eqn:Hdir.
  { apply catchable_export_raise. by eapply Hmkdir. }
  destruct (_ ≫= _) as [filename|e] eqn:Hname.
  2:{ apply catchable_export_raise.
      assert (catchable (safe ← sanitize_channel_name channel_name;
                         template ← export_template filename_format;
                         str_format E template safe (today E))) as Hcatch.
      { apply catchable_bind; [by destruct channel_name|]. intros safe.
        apply catchable_bind; [by destruct filename_format|]. intros template.
        apply Hformat. }
      by rewrite Hname in Hcatch. }
  destruct (save_error E _) as [e|] eqn:Hfile; [|done].
  apply catchable_export_raise. by eapply Hsave.
Qed.

Lemma catchable_flatten_entries entries acc : catchable (flatten_entries entries acc).
Proof.
  revert acc. induction entries as [|e entries IH]; intros acc; [done|].
  cbn [flatten_entries]. destruct (negb (truthy e)); [apply IH|].
  apply catchable_bind; [apply catchable_py_get|]. intros ty.
  destruct (py_eq ty _); [|apply IH].
  apply catchable_bind; [apply catchable_py_get|]. intros sub.
  apply catchable_bind; [apply catchable_py_iter|]. intros subs. apply IH.
Qed.

Lemma catchable_build_videos E entries acc : catchable (build_videos E entries acc).
Proof.
  revert acc. induction entries as [|e entries IH]; intros acc; [done|].
  cbn [build_videos].
  apply catchable_bind; [apply catchable_py_get|]. intros video_id.
  destruct (negb (truthy video_id)); [apply IH|].
  repeat (apply catchable_bind; [apply catchable_py_get|]; intros ?). apply IH.
Qed.

Lemma catchable_extract_from_info E info : catchable (extract_from_info E info).
Proof.
  unfold extract_from_info. destruct (negb (truthy info)); [done|].
  repeat first
    [ apply catchable_bind; [|intros ?]
    | apply catchable_py_get | apply catchable_py_iter
    | apply catchable_flatten_entries | apply catchable_build_videos | done ].
Qed.

Lemma catchable_validate_channels i channels :
  catchable (validate_channels i channels).1.
Proof.
  revert i. induction channels as [|channel rest IH]; intros i; [done|].
  cbn [validate_channels]. destruct channel as [| | | | |d]; try done.
  destruct (bool_decide (d !! "url" = None)); [done|].
  specialize (IH (S i)). by destruct (validate_channels (S i) rest).
Qed.

Lemma catchable_validate self : catchable (_validate self).1.
Proof.
  unfold _validate.
  destruct (py_contains "channels" (_config self)) as [[|]|e] eqn:Hin.
  - destruct (py_getitem (_config self) "channels") as [v|e] eqn:Hget.
    + destruct v as [| | | |[|c channels]|]; try done.
      pose proof (catchable_validate_channels 0 (c :: channels)) as Hloop.
      by destruct (validate_channels 0 (c :: channels)).
    + simpl. destruct (_config self) as [| | | | |d]; simpl in Hget;
        try (by injection Hget as <-).
      destruct (d !! "channels"); [done|]. by injection Hget as <-.
  - done.
  - simpl. destruct (_config self); simpl in Hin; try done; by injection Hin as <-.
Qed.

(** The errors of the loader are errors [except Exception] catches. *)
Lemma catchable_load E self : catchable (load E self).1.
Proof.
  unfold load. destruct (file_text E _) as [text|]; [|done].
  destruct (yaml_safe_load E text) as [v|]; [|done].
  match goal with |- context [_validate ?s] => pose proof (catchable_validate s) as Hv end.
  by destruct (_validate _) as [[[]|e] self'].
Qed.

Lemma catchable_get_output_settings E self : catchable (get_output_settings E self).1.
Proof.
  unfold get_output_settings, ensure_loaded.
  destruct (negb (truthy (_config self))).
  - pose proof (catchable_load E self) as Hload.
    destruct (load E self) as [[cfg|e] self']; [|done]. simpl.
    apply catchable_bind; [apply catchable_py_get|]. by intros [].
  - simpl. apply catchable_bind; [apply catchable_py_get|]. by intros [].
Qed.
(* ===================================================================== *)
(** * One channel of a batch *)
(* ===================================================================== *)

Lemma extract_run E url w :
  extract E url w
  = (match extract_info E (length (ydl_calls w)) (extract_options E) url
             ≫= extract_from_info E with
     | Ok r => Ok r
     | Raise e => if is_Exception (exn_cls e) then Raise (extract_failed e) else Raise e
     end,
     called (extract_options E, url) w).
Proof.
  unfold extract, try_except, ydl_extract_info. unfold_monads. fold (called (extract_options E, url) w).
  destruct (extract_info E _ _ _) as [info|e]; simpl.
  - destruct (extract_from_info E info) as [?|e]; simpl; [done|].
    by destruct (is_Exception _).
  - by destruct (is_Exception _).
Qed.

Lemma print_accepted E l w :
  print_error E l = None → print E l w = (Ok tt, printed l w).
Proof. unfold print. by intros ->. Qed.

Lemma print_refused E l e w :
  print_error E l = Some e → print E l w = (Raise e, w).
Proof. unfold print. by intros ->. Qed.

Lemma catchable_extraction_at E m url :
  interrupt_free E → catchable (extraction_at E m url).
Proof.
  intros (Hinfo & _). apply catchable_bind; [apply Hinfo | apply catchable_extract_from_info].
Qed.

Lemma catchable_turn_export E settings videos name :
  quiet_files E → catchable (turn_export E settings videos name).
Proof.
  intros Hquiet. unfold turn_export. cbn [py_getitem].
  apply catchable_bind; [by destruct (settings !! "directory")|]. intros directory.
  apply catchable_bind; [by destruct directory|]. intros output_dir.
  by apply catchable_export_result.
Qed.

(** One turn of the loop, for an entry with a url, when the standard output
    takes every line: the turn returns, the backend has been called once
    more, and the errors reported and the files saved are those of
    [turn_outcome]. *)
Lemma process_channel_spec E settings n i (c : pydict) w :
  interrupt_free E →
  stdout_accepts E →
  is_Some (c !! "url") →
  ∃ w', process_channel E settings n i (PDict c) w = (Ok tt, w') ∧
    ydl_calls w' = ydl_calls w ++ [(extract_options E, url_of c)] ∧
    stderr w'
    = stderr w ++ (failure_line <$> (turn_outcome E settings (length (ydl_calls w)) i c).1) ∧
    saved w' = saved w ++ (turn_outcome E settings (length (ydl_calls w)) i c).2.
Proof.
  intros Hfree Hacc [url Hurl].
  pose proof Hfree as (_ & Hquiet & _).
  unfold process_channel, turn_outcome, url_of. cbn [py_get py_getitem].
  rewrite Hurl. cbn [default from_option id].
  unfold try_except, print, print_err. unfold_monads. rewrite !Hacc.
  set (w1 := {| stdout := _ |}).
  rewrite extract_run.
  change (extract_info E (length (ydl_calls w1)) (extract_options E) url
            ≫= extract_from_info E)
    with (extraction_at E (length (ydl_calls w)) url).
  pose proof (catchable_extraction_at E (length (ydl_calls w)) url Hfree) as Hcatch.
  destruct (extraction_at E (length (ydl_calls w)) url) as [[videos extracted]|e0].
  2:{ simpl in Hcatch. rewrite Hcatch. cbn [extract_failed exn_cls is_Exception].
      eexists. split; [done|]. cbn. by rewrite app_nil_r. }
  rewrite ?Hacc. destruct videos as [|video videos].
  { rewrite ?Hacc. eexists. split; [done|]. cbn. by rewrite !app_nil_r. }
  fold (export_name i c extracted).
  pose proof (catchable_turn_export E settings (video :: videos)
                (export_name i c extracted) Hquiet) as Hexport.
  unfold turn_export in *. cbn [py_getitem] in *.
  destruct (settings !! "directory") as [directory|]; simpl in *.
  2:{ eexists. split; [done|]. cbn. by rewrite app_nil_r. }
  destruct (Path_of directory) as [output_dir|e] eqn:Hdir; simpl in *.
  2:{ rewrite Hexport. eexists. split; [done|]. cbn. by rewrite app_nil_r. }
  rewrite export_run.
  destruct (export_result E _ _ _ _) as [[[p ws]|e] made]; simpl in *.
  - rewrite ?Hacc. eexists. split; [done|]. cbn. by rewrite app_nil_r.
  - rewrite Hexport. eexists. split; [done|]. cbn.
    split_and!; [by destruct made| by destruct made | destruct made; by rewrite app_nil_r].
Qed.

(* ===================================================================== *)
(** * The batch *)
(* ===================================================================== *)

(** The loop attempts every channel, in order, whatever fails on the way;
    what it reports and what it saves is what each channel comes to on its
    own. *)
Lemma process_channels_spec E settings n i (channels : list pydict) w :
  interrupt_free E →
  stdout_accepts E →
  Forall (λ c, is_Some (c !! "url")) channels →
  ∃ w',
    process_channels E settings n i (PDict <$> channels) w = (Ok tt, w') ∧
    ydl_calls w' = ydl_calls w ++ ((λ c, (extract_options E, url_of c)) <$> channels) ∧
    stderr w'
    = stderr w ++ (failure_line <$>
                     (batch_outcome E settings (length (ydl_calls w)) i channels).1) ∧
    saved w' = saved w ++ (batch_outcome E settings (length (ydl_calls w)) i channels).2.
Proof.
  intros Hfree Hacc Hall. revert i w.
  induction Hall as [|c channels Hurl _ IH]; intros i w.
  { exists w. cbn. by rewrite !app_nil_r. }
  cbn [fmap list_fmap process_channels batch_outcome]. unfold mbind at 1, M_bind.
  destruct (process_channel_spec E settings n i c w Hfree Hacc Hurl)
    as (w1 & -> & Hcalls & Herr & Hsaved).
  destruct (IH (S i) w1) as (w' & -> & Hcalls' & Herr' & Hsaved').
  exists w'. split; [done|].
  assert (length (ydl_calls w1) = S (length (ydl_calls w))) as Hlen.
  { rewrite Hcalls, length_app. simpl. lia. }
  rewrite Hlen in Herr', Hsaved'.
  rewrite Hcalls', Hcalls, Herr', Herr, Hsaved', Hsaved. cbn [fst snd].
  by rewrite fmap_app, <- !app_assoc.
Qed.

(** In a batch a channel is judged on its own: what it reports and what it
    saves is among what the batch reports and saves, whatever became of the
    channels before and after it. *)
Lemma batch_outcome_lookup E settings m i channels k c :
  channels !! k = Some c →
  (turn_outcome E settings (m + k) (i + k) c).1
    ⊆ (batch_outcome E settings m i channels).1 ∧
  (turn_outcome E settings (m + k) (i + k) c).2
    ⊆ (batch_outcome E settings m i channels).2.
Proof.
  revert m i k. induction channels as [|c0 channels IH]; intros m i k; [done|].
  destruct k as [|k]; cbn [batch_outcome fst snd lookup list_lookup].
  - intros [= ->]. rewrite !Nat.add_0_r.
    split; intros x Hx; apply elem_of_app; by left.
  - intros Hk. destruct (IH (S m) (S i) k Hk) as [Herr Hfiles].
    replace (m + S k) with (S m + k) by lia. replace (i + S k) with (S i + k) by lia.
    split; intros x Hx; apply elem_of_app; right; [by apply Herr | by apply Hfiles].
Qed.

(** The loader gives the loop entries with a url. *)
Lemma load_ok_enabled_channels E self cfg loader :
  load E self = (Ok cfg, loader) →
  ∃ enabled : list pydict,
    get_enabled_channels E loader = (Ok (PDict <$> enabled), loader) ∧
    Forall (λ c, is_Some (c !! "url")) enabled.
Proof.
  unfold load. destruct (file_text E _) as [text|]; [|done].
  destruct (yaml_safe_load E text) as [v|]; [|done].
  destruct (_validate _) as [[[]|e] self'] eqn:Hvalid; [|done].
  intros [= _ <-].
  apply validate_ok_inv in Hvalid as (d & old & _ & _ & _ & Hurl & ->).
  eexists. split; [apply get_enabled_channels_validated|].
  apply Forall_forall. intros c [_ [i Hc]%list_elem_of_lookup_1]%list_elem_of_filter.
  apply list_lookup_imap_Some in Hc as (c0 & Hc0 & ->).
  destruct (fill_defaults_lookup i c0) as (_ & _ & Hother).
  rewrite (Hother "url") by done.
  rewrite Forall_forall in Hurl. apply Hurl. by eapply list_elem_of_lookup_2.
Qed.

Lemma config_flag_true arg :
  is_config_flag arg →
  bool_decide (arg = lit "--config") || bool_decide (arg = lit "-c") = true.
Proof. intros [->| ->]; by vm_compute. Qed.

Lemma config_flag_false arg :
  ¬ is_config_flag arg →
  bool_decide (arg = lit "--config") || bool_decide (arg = lit "-c") = false.
Proof.
  unfold is_config_flag. intros Hnot. apply orb_false_iff.
  split; apply bool_decide_eq_false_2; intros ->; apply Hnot; auto.
Qed.

(** How [main] ends once the command it runs has ended. *)
Lemma main_handler E prog arg1 args w :
  let body : M unit :=
    if bool_decide (arg1 = lit "--config") || bool_decide (arg1 = lit "-c") then
      match args with
      | [] => print_err [Txt (lit "Error: Config file path required")];; sys_exit 1
      | config_path :: _ => process_config_file E config_path
      end
    else process_single_channel E (PStr arg1) None PNone in
  main E (prog :: arg1 :: args) w
  = match body w with
    | (Ok tt, w') => (Ok tt, w')
    | (Raise e, w') =>
        match exn_cls e with
        | KeyboardInterrupt =>
            match print_error E cancelled_line with
            | Some e' => (Raise e', w')
            | None => (exit_130, printed cancelled_line w')
            end
        | SystemExit => (Raise e, w')
        | _ => (exit_1, reported (error_line e) w')
        end
    end.
Proof.
  intros body. unfold main. fold body.
  destruct (body w) as [[[]|e] w']; [done|].
  destruct (exn_cls e); try done.
  unfold mbind, M_bind, print, cancelled_line.
  by destruct (print_error E _).
Qed.

(** [process_config_file] step by step. *)
Lemma process_config_file_unfold E config_path w :
  process_config_file E config_path w
  = match print E [Txt (lit "Loading configuration from: "); Txt config_path] w with
    | (Raise e, w1) => (Raise e, w1)
    | (Ok _, w1) =>
        match load E (ConfigLoader_init config_path) with
        | (Raise e, _) => (Raise e, w1)
        | (Ok _, loader) =>
            match get_enabled_channels E loader with
            | (Raise e, _) => (Raise e, w1)
            | (Ok channels, loader) =>
                match get_output_settings E loader with
                | (Raise e, _) => (Raise e, w1)
                | (Ok settings, _) =>
                    match print E [Txt (lit "Found "); Num (length channels);
                                   Txt (lit " enabled channel(s)"); Txt nl] w1 with
                    | (Raise e, w2) => (Raise e, w2)
                    | (Ok _, w2) =>
                        match process_channels E settings (length channels) 1 channels w2
                        with
                        | (Raise e, w3) => (Raise e, w3)
                        | (Ok _, w3) => print E [Txt (lit "All channels processed!")] w3
                        end
                    end
                end
            end
        end
    end.
Proof.
  unfold process_config_file. unfold_monads.
  destruct (print E _ w) as [[[]|e] w1]; [|done].
  destruct (load E _) as [[cfg|e] loader]; [|done].
  destruct (get_enabled_channels E loader) as [[channels|e] loader1]; [|done].
  destruct (get_output_settings E loader1) as [[settings|e] loader2]; [|done].
  destruct (print E _ w1) as [[[]|e] w2]; [|done].
  by destruct (process_channels E _ _ _ _ w2) as [[[]|e] w3].
Qed.

(** The batch of a configuration that has been loaded. *)
Lemma process_config_file_run E config_path w cfg loader (enabled : list pydict) :
  interrupt_free E →
  stdout_accepts E →
  load E (ConfigLoader_init config_path) = (Ok cfg, loader) →
  get_enabled_channels E loader = (Ok (PDict <$> enabled), loader) →
  Forall (λ c, is_Some (c !! "url")) enabled →
  match (get_output_settings E loader).1 with
  | Ok settings =>
      ∃ w', process_config_file E config_path w = (Ok tt, w') ∧
        ydl_calls w'
        = ydl_calls w ++ ((λ c, (extract_options E, url_of c)) <$> enabled) ∧
        stderr w'
        = stderr w ++ (failure_line <$>
                         (batch_outcome E settings (length (ydl_calls w)) 1 enabled).1) ∧
        saved w' = saved w ++ (batch_outcome E settings (length (ydl_calls w)) 1 enabled).2
  | Raise e =>
      ∃ w', process_config_file E config_path w = (Raise e, w') ∧
        is_Exception (exn_cls e) = true ∧
        stderr w' = stderr w ∧ ydl_calls w' = ydl_calls w ∧ saved w' = saved w
  end.
Proof.
  intros Hfree Hacc Hload Henabled Hurl. rewrite process_config_file_unfold.
  rewrite !(print_accepted E _ _ (Hacc _)), Hload, Henabled.
  pose proof (catchable_get_output_settings E loader) as Hcatch.
  destruct (get_output_settings E loader) as [[settings|e] loader']; cbn [fst] in *.
  2:{ eexists. split; [done|]. by split_and!. }
  rewrite length_fmap, (print_accepted E _ _ (Hacc _)).
  match goal with
  | |- context [process_channels E settings ?n 1 _ ?w1] =>
      destruct (process_channels_spec E settings n 1 enabled w1 Hfree Hacc Hurl)
        as (w2 & -> & Hcalls & Herr & Hsaved)
  end.
  rewrite (print_accepted E _ _ (Hacc _)).
  eexists. split; [done|]. cbn. by rewrite Hcalls, Herr, Hsaved.
Qed.

(** C9: in batch mode, when no interrupt arrives and the standard output
    takes the lines of the program, a channel whose extraction or export
    fails is caught and reported on the error stream and the loop goes on.
    Every enabled channel is attempted, in order; each one leaves what it
    comes to on its own, so that a channel whose extraction and export
    succeed has its file saved whatever became of the others; and the
    process ends with status 0.  An error of the configuration loader, when
    it loads the file or when it gives the output settings, ends the
    process with status 1 before the backend is called. *)
Theorem batch_tolerates_channel_failures E :
  interrupt_free E →
  stdout_accepts E →
  (∀ settings n i (c : pydict) w,
     is_Some (c !! "url") →
     ∃ w', process_channel E settings n i (PDict c) w = (Ok tt, w') ∧
       ydl_calls w' = ydl_calls w ++ [(extract_options E, url_of c)] ∧
       stderr w'
       = stderr w ++ (failure_line <$>
                        (turn_outcome E settings (length (ydl_calls w)) i c).1) ∧
       saved w' = saved w ++ (turn_outcome E settings (length (ydl_calls w)) i c).2) ∧
  (∀ settings m i channels k c,
     channels !! k = Some c →
     (turn_outcome E settings (m + k) (i + k) c).1
       ⊆ (batch_outcome E settings m i channels).1 ∧
     (turn_outcome E settings (m + k) (i + k) c).2
       ⊆ (batch_outcome E settings m i channels).2) ∧
  (∀ prog flag config_path rest w cfg loader,
     is_config_flag flag →
     load E (ConfigLoader_init config_path) = (Ok cfg, loader) →
     ∃ enabled : list pydict,
       get_enabled_channels E loader = (Ok (PDict <$> enabled), loader) ∧
       match (get_output_settings E loader).1 with
       | Ok settings =>
           ∃ w',
             main E (prog :: flag :: config_path :: rest) w = (Ok tt, w') ∧
             exit_status (main E (prog :: flag :: config_path :: rest) w).1 = 0 ∧
             ydl_calls w'
             = ydl_calls w ++ ((λ c, (extract_options E, url_of c)) <$> enabled) ∧
             stderr w'
             = stderr w ++ (failure_line <$>
                 (batch_outcome E settings (length (ydl_calls w)) 1 enabled).1) ∧
             saved w'
             = saved w ++ (batch_outcome E settings (length (ydl_calls w)) 1 enabled).2
       | Raise e =>
           ∃ w',
             main E (prog :: flag :: config_path :: rest) w = (exit_1, w') ∧
             exit_status (main E (prog :: flag :: config_path :: rest) w).1 = 1 ∧
             stderr w' = stderr w ++ [error_line e] ∧
             ydl_calls w' = ydl_calls w ∧ saved w' = saved w
       end) ∧
  (∀ prog flag config_path rest w e,
     is_config_flag flag →
     (load E (ConfigLoader_init config_path)).1 = Raise e →
     ∃ w', main E (prog :: flag :: config_path :: rest) w = (exit_1, w') ∧
       exit_status (main E (prog :: flag :: config_path :: rest) w).1 = 1 ∧
       stderr w' = stderr w ++ [error_line e] ∧
       ydl_calls w' = ydl_calls w ∧ saved w' = saved w).
Proof.
  intros Hfree Hacc. split_and!.
  - intros settings n i c w Hurl. by apply process_channel_spec.
  - intros settings m i channels k c. apply batch_outcome_lookup.
  - intros prog flag config_path rest w cfg loader Hflag Hload.
    destruct (load_ok_enabled_channels E _ _ _ Hload) as (enabled & Henabled & Hurl).
    exists enabled. split; [done|].
    pose proof (process_config_file_run E config_path w cfg loader enabled
                  Hfree Hacc Hload Henabled Hurl) as Hrun.
    rewrite main_handler, (config_flag_true _ Hflag).
    destruct (get_output_settings E loader).1 as [settings|e].
    + destruct Hrun as (w' & -> & Hcalls & Herr & Hsaved). by exists w'.
    + destruct Hrun as (w' & -> & Hexn & Herr & Hcalls & Hsaved).
      destruct e as [cls msg]. simpl in Hexn.
      destruct cls; try done; (eexists; split; [done|]; cbn; by rewrite Herr).
  - intros prog flag config_path rest w e Hflag Hload.
    pose proof (catchable_load E (ConfigLoader_init config_path)) as Hexn.
    rewrite main_handler, (config_flag_true _ Hflag).
    rewrite process_config_file_unfold, (print_accepted E _ _ (Hacc _)).
    destruct (load E (ConfigLoader_init config_path)) as [r loader].
    simpl in Hload, Hexn. subst r.
    destruct e as [cls msg]. simpl in Hexn.
    destruct cls; try done; by eexists.
Qed.

Lemma sample_interrupt_free document : interrupt_free (Sample.mk_env document Sample.backend).
Proof.
  split_and!; try done.
  intros n opts url. unfold extract_info, Sample.mk_env, Sample.backend.
  by destruct (py_eq url _).
Qed.

Lemma sample_stdout_accepts document backend :
  stdout_accepts (Sample.mk_env document backend).
Proof. done. Qed.

(** Three channels, the second of which the backend fails on. *)
Lemma batch_tolerates_channel_failures_witness :
  let E := Sample.mk_env (Some Sample.three_channels) Sample.backend in
  let loader := (load E (ConfigLoader_init (lit "channels.yaml"))).2 in
  interrupt_free E ∧ stdout_accepts E ∧ is_config_flag (lit "--config") ∧
  load E (ConfigLoader_init (lit "channels.yaml")) = (Ok (_config loader), loader) ∧
  ∃ enabled : list pydict,
    get_enabled_channels E loader = (Ok (PDict <$> enabled), loader) ∧
    match (get_output_settings E loader).1 with
    | Ok settings =>
        ∃ w',
          main E (lit "yt-extractor" :: lit "--config" :: lit "channels.yaml" :: []) world0
          = (Ok tt, w') ∧
          exit_status
            (main E (lit "yt-extractor" :: lit "--config" :: lit "channels.yaml" :: [])
               world0).1 = 0 ∧
          ydl_calls w'
          = ydl_calls world0 ++ ((λ c, (extract_options E, url_of c)) <$> enabled) ∧
          stderr w'
          = stderr world0 ++ (failure_line <$>
              (batch_outcome E settings (length (ydl_calls world0)) 1 enabled).1) ∧
          saved w'
          = saved world0 ++
              (batch_outcome E settings (length (ydl_calls world0)) 1 enabled).2
    | Raise e =>
        ∃ w',
          main E (lit "yt-extractor" :: lit "--config" :: lit "channels.yaml" :: []) world0
          = (exit_1, w') ∧
          exit_status
            (main E (lit "yt-extractor" :: lit "--config" :: lit "channels.yaml" :: [])
               world0).1 = 1 ∧
          stderr w' = stderr world0 ++ [error_line e] ∧
          ydl_calls w' = ydl_calls world0 ∧ saved w' = saved world0
    end.
Proof.
  intros E loader.
  pose proof (sample_interrupt_free (Some Sample.three_channels)) as Hfree.
  pose proof (sample_stdout_accepts (Some Sample.three_channels) Sample.backend) as Hacc.
  assert (load E (ConfigLoader_init (lit "channels.yaml")) = (Ok (_config loader), loader))
    as Hload by (vm_compute; reflexivity).
  split; [exact Hfree|]. split; [exact Hacc|]. split; [left; reflexivity|].
  split; [exact Hload|].
  exact (proj1 (proj2 (proj2 (batch_tolerates_channel_failures E Hfree Hacc)))
           (lit "yt-extractor") (lit "--config") (lit "channels.yaml") [] world0
           (_config loader) loader (or_introl eq_refl) Hload).
Defined.

(** The batch of the specification: the second of three channels fails
    during extraction; the sheets of the first and of the third are written,
    the failure is reported once, and the status is 0. *)
Lemma batch_second_of_three_fails :
  let E := Sample.mk_env (Some Sample.three_channels) Sample.backend in
  let w' := (main E Sample.batch_argv world0).2 in
  exit_status (main E Sample.batch_argv world0).1 = 0 ∧
  (ydl_calls w').*2 = [PStr (lit "first"); PStr (lit "bad"); PStr (lit "third")] ∧
  Sample.written w' = [Join (Path (lit "outputs")) (lit "first_videos.xlsx");
                       Join (Path (lit "outputs")) (lit "third_videos.xlsx")] ∧
  stderr w' = [failure_line (extract_failed (Exn OSError [Txt (lit "unreachable")]))].
Proof. by vm_compute. Qed.
(* ===================================================================== *)
(** * The name a channel is exported under *)
(* ===================================================================== *)

(** C1 at two configurations.  In the first the only enabled channel has no
    name and follows a disabled one: validation names it [Channel 2], the
    loop compares that with [Channel 1], and the sheet is written under the
    placeholder although the backend extracted the name [second].  In the
    second the user names a channel [Channel 1]: the sheet is written under
    the extracted name [first], not under the declared one. *)
Theorem placeholder_name_mismatch :
  let disabled_first :=
    Sample.mk_env
      (Some (Sample.config [<["enabled" := PBool false]> (Sample.channel "first");
                            Sample.channel "second"]))
      Sample.backend in
  let named_like_placeholder :=
    Sample.mk_env
      (Some (Sample.config [<["name" := PStr (lit "Channel 1")]> (Sample.channel "first")]))
      Sample.backend in
  extraction disabled_first world0 (PStr (lit "second")) ≫= (λ r, Ok r.2)
    = Ok (PStr (lit "second")) ∧
  Sample.written (main disabled_first Sample.batch_argv world0).2
    = [Join (Path (lit "outputs")) (lit "Channel 2_videos.xlsx")] ∧
  Sample.written (main named_like_placeholder Sample.batch_argv world0).2
    = [Join (Path (lit "outputs")) (lit "first_videos.xlsx")].
Proof. by vm_compute. Qed.
(* ===================================================================== *)
(** * Further properties of the code *)
(* ===================================================================== *)

(* ===================================================================== *)
(** * The extractor *)
(* ===================================================================== *)

Lemma flatten_entries_app a b acc :
  flatten_entries (a ++ b) acc = flatten_entries a acc ≫= flatten_entries b.
Proof.
  revert acc. induction a as [|e a IH]; intros acc; [done|].
  cbn [app flatten_entries]. destruct (negb (truthy e)); [apply IH|].
  unfold_monads. destruct (py_get e "_type" PNone) as [ty|]; [|done].
  destruct (py_eq ty _); [|apply IH].
  destruct (py_get e "entries" _) as [sub|]; [|done].
  destruct (py_iter sub) as [subs|]; [apply IH | done].
Qed.

Lemma build_videos_app E a b acc :
  build_videos E (a ++ b) acc = build_videos E a acc ≫= build_videos E b.
Proof.
  revert acc. induction a as [|e a IH]; intros acc; [done|].
  cbn [app build_videos]. unfold_monads.
  destruct (py_get e "id" _) as [video_id|]; [|done].
  destruct (negb (truthy video_id)); [apply IH|].
  destruct (py_get e "title" _) as [title|]; [|done].
  destruct (py_get e "description" _) as [description|]; [|done].
  destruct (py_get e "release_timestamp" _) as [ts|]; [|done].
  destruct (py_get e "upload_date" _) as [date|]; [apply IH | done].
Qed.

(** The two loops of [extract] go through the entries from left to right:
    running a loop on [a ++ b] is running it on [a] and then, from the list
    it has built, on [b]; an error in [a] is the error of the whole. *)
Theorem extract_loops_compose E a b acc :
  flatten_entries (a ++ b) acc = flatten_entries a acc ≫= flatten_entries b ∧
  build_videos E (a ++ b) acc = build_videos E a acc ≫= build_videos E b.
Proof. split; [apply flatten_entries_app | apply build_videos_app]. Qed.

Lemma video_data_built E video_id title description upload_date :
  truthy video_id = true →
  built_record E (PDict (video_data E video_id title description upload_date)).
Proof.
  intros Hid. exists (video_data E video_id title description upload_date), video_id.
  unfold video_data, record_keys. split_and!; try done; by simplify_map_eq.
Qed.

Lemma build_videos_built E entries acc videos :
  build_videos E entries acc = Ok videos →
  Forall (built_record E) acc → Forall (built_record E) videos.
Proof.
  revert acc. induction entries as [|e entries IH]; intros acc; cbn [build_videos].
  { by intros [= <-]. }
  unfold_monads.
  destruct (py_get e "id" _) as [video_id|]; [|done].
  destruct (truthy video_id) eqn:Hid; cbn [negb]; [|apply IH].
  destruct (py_get e "title" _) as [title|]; [|done].
  destruct (py_get e "description" _) as [description|]; [|done].
  destruct (py_get e "release_timestamp" _) as [ts|]; [|done].
  destruct (py_get e "upload_date" _) as [date|]; [|done].
  intros Hbuild Hacc. apply (IH _ Hbuild).
  apply Forall_app. split; [done|]. apply Forall_singleton. by apply video_data_built.
Qed.

(** Whatever the backend answers, every record [extract] returns has exactly
    the keys id, title, description, url and upload_date, an id that is not
    empty, and the watch url of that id. *)
Theorem extract_records_built E info videos channel_name :
  extract_from_info E info = Ok (videos, channel_name) →
  Forall (built_record E) videos.
Proof.
  unfold extract_from_info. destruct (negb (truthy info)); [done|]. unfold_monads.
  destruct (py_get info "uploader" _) as [uploader|]; [|done].
  destruct (py_get info "channel" _) as [name|]; [|done].
  destruct (py_get info "entries" _) as [entries|]; [|done].
  destruct (py_iter entries) as [items|]; [|done].
  destruct (flatten_entries items []) as [all_videos|]; [|done].
  destruct (build_videos E all_videos []) as [vs|] eqn:Hbuild; [|done].
  intros [= <- _]. by eapply build_videos_built.
Qed.

Lemma extract_records_built_witness :
  let E := Sample.mk_env None Sample.backend in
  let videos := [PDict (video_data E (PStr (lit "a")) (PStr []) (PStr []) (PStr []));
                 PDict (video_data E (PStr (lit "b")) (PStr []) (PStr []) (PStr []));
                 PDict (video_data E (PStr (lit "c")) (PStr []) (PStr []) (PStr []))] in
  extract_from_info E (Sample.info (PStr (lit "Name"))) = Ok (videos, PStr (lit "Name")) ∧
  Forall (built_record E) videos.
Proof.
  intros E videos.
  assert (extract_from_info E (Sample.info (PStr (lit "Name")))
          = Ok (videos, PStr (lit "Name"))) as Hrun by (vm_compute; reflexivity).
  split; [exact Hrun|]. exact (extract_records_built E _ _ _ Hrun).
Defined.

(** The name [extract] returns: the channel field of the answer when the
    key is there, whatever it holds (None included), else the uploader field
    when that key is there, else the text [unknown]; an answer that is None
    or empty is refused with [ValueError]. *)
Theorem extract_channel_name E info :
  (truthy info = false →
   extract_from_info E info
   = Raise (Exn ValueError [Txt (lit "Could not extract channel information")])) ∧
  (∀ videos channel_name,
     extract_from_info E info = Ok (videos, channel_name) →
     ∃ d : pydict, info = PDict d ∧
       channel_name = match d !! "channel" with
                      | Some c => c
                      | None => default (PStr (lit "unknown")) (d !! "uploader")
                      end).
Proof.
  split.
  - intros Hinfo. unfold extract_from_info. by rewrite Hinfo.
  - intros videos channel_name. unfold extract_from_info.
    destruct (negb (truthy info)); [done|].
    destruct info as [| | | | |d]; try done. cbn [py_get]. unfold_monads.
    destruct (py_iter _) as [items|]; [|done].
    destruct (flatten_entries items []) as [all_videos|]; [|done].
    destruct (build_videos E all_videos []) as [vs|]; [|done].
    intros [= _ <-]. exists d. split; [done|]. by destruct (d !! "channel").
Qed.

Lemma extract_channel_name_witness :
  let E := Sample.mk_env None Sample.backend in
  let info := PDict (<["channel" := PNone]> (<["uploader" := PStr (lit "someone")]> ∅)) in
  truthy PNone = false ∧
  extract_from_info E PNone
  = Raise (Exn ValueError [Txt (lit "Could not extract channel information")]) ∧
  extract_from_info E info = Ok ([], PNone) ∧
  ∃ d : pydict, info = PDict d ∧
    PNone = match d !! "channel" with
            | Some c => c
            | None => default (PStr (lit "unknown")) (d !! "uploader")
            end.
Proof.
  intros E info.
  assert (extract_from_info E info = Ok ([], PNone)) as Hrun by (vm_compute; reflexivity).
  split; [done|]. split; [exact (proj1 (extract_channel_name E PNone) eq_refl)|].
  split; [exact Hrun|]. exact (proj2 (extract_channel_name E info) _ _ Hrun).
Defined.

(** [extract] calls the backend once and does nothing else to the world: it
    prints nothing and writes no file.  What it returns is what the backend's
    answer gives; an error that [except Exception] catches comes out as
    [Exception] with the text [Failed to extract videos: ] and the cause, any
    other one (an interrupt) comes out as it is. *)
Theorem extract_effect E url w :
  stdout (extract E url w).2 = stdout w ∧
  stderr (extract E url w).2 = stderr w ∧
  made_dirs (extract E url w).2 = made_dirs w ∧
  saved (extract E url w).2 = saved w ∧
  ydl_calls (extract E url w).2 = ydl_calls w ++ [(extract_options E, url)] ∧
  match (extract E url w).1 with
  | Ok r => extraction E w url = Ok r
  | Raise e =>
      (∃ cause, extraction E w url = Raise cause ∧
                is_Exception (exn_cls cause) = true ∧ e = extract_failed cause) ∨
      (extraction E w url = Raise e ∧ is_Exception (exn_cls e) = false)
  end.
Proof.
  rewrite extract_run. cbn [fst snd called stdout stderr made_dirs saved ydl_calls].
  split_and!; try done. fold (extraction E w url).
  destruct (extraction E w url) as [r|e]; [done|].
  destruct (is_Exception (exn_cls e)) eqn:He; [left; by exists e | by right].
Qed.

(* ===================================================================== *)
(** * The file name of a channel *)
(* ===================================================================== *)

Lemma str_lstrip_suffix chars s : str_lstrip chars s `suffix_of` s.
Proof.
  induction s as [|x s IH]; [done|]. simpl.
  case_bool_decide; [by apply suffix_cons_r | done].
Qed.

Lemma str_lstrip_head chars s c :
  head (str_lstrip chars s) = Some c → c ∉ chars.
Proof.
  induction s as [|x s IH]; [done|]. simpl.
  case_bool_decide as Hx; [done|]. by intros [= <-].
Qed.

Lemma str_lstrip_id chars s :
  (∀ c, head s = Some c → c ∉ chars) → str_lstrip chars s = s.
Proof.
  destruct s as [|x s]; [done|]. intros Hhead. simpl.
  by rewrite bool_decide_eq_false_2 by (by apply Hhead).
Qed.

Lemma str_rstrip_prefix chars s : str_rstrip chars s `prefix_of` s.
Proof.
  unfold str_rstrip. apply prefix_suffix_reverse. rewrite reverse_involutive.
  apply str_lstrip_suffix.
Qed.

Lemma str_rstrip_id chars s :
  (∀ c, last s = Some c → c ∉ chars) → str_rstrip chars s = s.
Proof.
  intros Hlast. unfold str_rstrip. rewrite str_lstrip_id; [apply reverse_involutive|].
  intros c Hc. apply Hlast. by rewrite <- head_reverse.
Qed.

Lemma prefix_head {A} (l1 l2 : list A) x :
  l1 `prefix_of` l2 → head l1 = Some x → head l2 = Some x.
Proof. intros [k ->]. by destruct l1. Qed.

Lemma Forall_prefix {A} (P : A → Prop) (l1 l2 : list A) :
  l1 `prefix_of` l2 → Forall P l2 → Forall P l1.
Proof. intros [k ->] [? _]%Forall_app. done. Qed.

Lemma Forall_suffix {A} (P : A → Prop) (l1 l2 : list A) :
  l1 `suffix_of` l2 → Forall P l2 → Forall P l1.
Proof. intros [k ->] [_ ?]%Forall_app. done. Qed.

Lemma str_strip_Forall (P : N → Prop) chars s :
  Forall P s → Forall P (str_strip chars s).
Proof.
  intros Hs. unfold str_strip.
  eapply Forall_prefix; [apply str_rstrip_prefix|].
  eapply Forall_suffix; [apply str_lstrip_suffix | exact Hs].
Qed.

Lemma str_strip_head chars s c : head (str_strip chars s) = Some c → c ∉ chars.
Proof.
  intros Hc. apply (str_lstrip_head chars s).
  eapply prefix_head; [apply str_rstrip_prefix | exact Hc].
Qed.

(** Whatever the name, the file name part [_sanitize_filename] returns is
    not empty, has at most 100 characters, holds none of the nine invalid
    characters and does not begin with a space or a dot. *)
Theorem sanitize_filename_safe s :
  _sanitize_filename s ≠ [] ∧
  (length (_sanitize_filename s) ≤ max_length)%nat ∧
  Forall (λ c, c ∉ invalid_chars) (_sanitize_filename s) ∧
  (∀ c, head (_sanitize_filename s) = Some c → ¬ edge_char c).
Proof.
  unfold _sanitize_filename. rewrite replace_invalid_chars.
  set (replaced := _ <$> s). set (stripped := str_strip _ replaced).
  set (cut := if bool_decide _ then _ else _).
  assert (Forall (λ c, c ∉ invalid_chars) replaced) as Hreplaced.
  { apply Forall_fmap, Forall_true. intros c. simpl.
    case_bool_decide; [by_decide | done]. }
  assert (cut `prefix_of` stripped) as Hprefix.
  { unfold cut. case_bool_decide; [apply prefix_take | done]. }
  assert (length cut ≤ max_length)%nat as Hlen.
  { unfold cut. case_bool_decide; [rewrite length_take|]; lia. }
  assert (Forall (λ c, c ∉ invalid_chars) cut) as Hvalid.
  { eapply Forall_prefix; [exact Hprefix|]. by apply str_strip_Forall. }
  assert (∀ c, head cut = Some c → ¬ edge_char c) as Hhead.
  { intros c Hc. apply (str_strip_head _ replaced).
    eapply prefix_head; [exact Hprefix | exact Hc]. }
  destruct cut as [|x cut']; [|done].
  split_and!; [done | vm_compute; lia | by_decide |].
  intros c [= <-]. unfold edge_char. by_decide.
Qed.

(** A name that is not empty, has at most 100 characters, none of them
    invalid, and neither begins nor ends with a space or a dot is returned
    as it is. *)
Theorem sanitize_filename_clean s : clean_name s → _sanitize_filename s = s.
Proof.
  intros (Hne & Hlen & Hvalid & Hhead & Hlast).
  unfold _sanitize_filename. rewrite replace_invalid_chars.
  assert ((λ x, if bool_decide (x ∈ invalid_chars) then underscore else x) <$> s = s)
    as ->.
  { rewrite <- (list_fmap_id s) at 2. apply Forall_fmap_ext_1.
    eapply Forall_impl; [exact Hvalid|]. intros c Hc. simpl.
    by rewrite bool_decide_eq_false_2. }
  unfold str_strip. rewrite (str_lstrip_id _ s) by exact Hhead.
  rewrite (str_rstrip_id _ s) by exact Hlast.
  rewrite bool_decide_eq_false_2 by lia. by destruct s.
Qed.

Lemma sanitize_filename_clean_witness :
  clean_name (lit "My Channel (2024)") ∧
  _sanitize_filename (lit "My Channel (2024)") = lit "My Channel (2024)".
Proof.
  assert (clean_name (lit "My Channel (2024)")) as Hclean.
  { split_and!.
    - done.
    - vm_compute; lia.
    - by_decide.
    - intros c [= <-]. unfold edge_char. by_decide.
    - intros c Hc. vm_compute in Hc. injection Hc as <-. unfold edge_char. by_decide. }
  split; [exact Hclean | exact (sanitize_filename_clean _ Hclean)].
Defined.
(* ===================================================================== *)
(** * The exporter *)
(* ===================================================================== *)

Lemma insert_desc_keyed_stable {A} k (x : A) (l l' : list (pystr * A)) s :
  insert_desc (PStr k) x (keyed <$> l) = Ok (keyed <$> l') →
  filter (λ p, p.1 = s) l' = filter (λ p, p.1 = s) ((k, x) :: l).
Proof.
  revert l'. induction l as [|[k' y] l IH]; intros l'.
  { destruct l' as [|[k0 x0] [|? ?]]; try done. by intros [= <- <-]. }
  cbn [fmap list_fmap insert_desc keyed fst snd py_lt]. unfold_monads.
  destruct (str_lt k k') eqn:Hlt.
  - destruct (insert_desc (PStr k) x (keyed <$> l)) as [r|] eqn:Hins; [|done].
    destruct l' as [|[k0 y0] l']; [done|]. intros [= <- <- ->].
    specialize (IH l' eq_refl). rewrite filter_cons in IH.
    rewrite (filter_cons _ (k', y) l'), (filter_cons _ (k, x)), (filter_cons _ (k', y) l).
    cbn [fst] in IH |- *.
    destruct (decide (k' = s)) as [->|?]; [|exact IH].
    destruct (decide (k = s)) as [->|?].
    + by rewrite str_lt_irrefl in Hlt.
    + by rewrite IH.
  - destruct l' as [|[k0 x0] [|[k1 y1] l']]; try done.
    intros [= <- <- <- <- Hl]. f_equal.
    assert (Inj (=) (=) (keyed (A:=A))) as Hinj.
    { intros [? ?] [? ?] [= -> ->]. done. }
    by apply (inj (fmap keyed)) in Hl as ->.
Qed.

Lemma sort_desc_keyed_stable {A} (l l' : list (pystr * A)) s :
  sort_desc (keyed <$> l) = Ok (keyed <$> l') →
  filter (λ p, p.1 = s) l' = filter (λ p, p.1 = s) l.
Proof.
  revert l'. induction l as [|[k x] l IH]; intros l'.
  { by destruct l'. }
  cbn [fmap list_fmap sort_desc keyed fst snd]. unfold_monads.
  destruct (sort_desc_keyed l) as (r & Hsort & _). rewrite Hsort.
  intros Hins%(insert_desc_keyed_stable _ _ _ _ s). rewrite Hins.
  rewrite !filter_cons. cbn [fst]. specialize (IH r Hsort).
  by destruct (decide (k = s)); rewrite IH.
Qed.

(** The sort of [export] is stable: records with the same upload date stay
    in the order they were given in. *)
Theorem sorted_videos_stable videos sorted s :
  Forall video_record videos →
  sorted_videos videos = Ok sorted →
  filter (λ v, date_of v = s) sorted = filter (λ v, date_of v = s) videos.
Proof.
  intros Hrec. unfold sorted_videos. rewrite (with_keys_records _ Hrec).
  destruct (sort_desc_keyed ((λ v, (date_of v, v)) <$> videos))
    as (l' & Hsort & Hperm & _).
  unfold_monads. rewrite Hsort. intros [= <-].
  pose proof (sort_desc_keyed_stable _ _ s Hsort) as Hstable.
  assert (Forall (λ p, p.1 = date_of p.2) l') as Hkeys.
  { rewrite Hperm. by apply Forall_fmap, Forall_true. }
  assert (∀ l : list (pystr * pyval), Forall (λ p, p.1 = date_of p.2) l →
            filter (λ v, date_of v = s) l.*2 = (filter (λ p, p.1 = s) l).*2) as Hsnd.
  { induction 1 as [|p l Hp _ IH]; [done|].
    cbn [fmap list_fmap]. rewrite !filter_cons, <- Hp.
    destruct (decide (p.1 = s)); cbn [fmap list_fmap]; by rewrite IH. }
  assert ((keyed <$> l').*2 = l'.*2) as ->.
  { rewrite <- list_fmap_compose. by apply list_fmap_ext. }
  rewrite (Hsnd l' Hkeys), Hstable.
  rewrite <- (Hsnd _); [|by apply Forall_fmap, Forall_true].
  rewrite <- list_fmap_compose. by rewrite list_fmap_id.
Qed.

Lemma sorted_videos_stable_witness :
  let first := PDict (<["id" := PStr (lit "a")]> (<["upload_date" := PStr (lit "20240101")]> ∅)) in
  let second := PDict (<["id" := PStr (lit "b")]> (<["upload_date" := PStr (lit "20240101")]> ∅)) in
  let newer := PDict (<["id" := PStr (lit "c")]> (<["upload_date" := PStr (lit "20250101")]> ∅)) in
  Forall video_record [first; second; newer] ∧
  sorted_videos [first; second; newer] = Ok [newer; first; second] ∧
  filter (λ v, date_of v = lit "20240101") [newer; first; second]
  = filter (λ v, date_of v = lit "20240101") [first; second; newer].
Proof.
  intros first second newer.
  assert (Forall video_record [first; second; newer]) as Hrec.
  { repeat apply Forall_cons_2; try apply Forall_nil_2;
      (eexists; split; [reflexivity|]); right; right; eexists; by vm_compute. }
  assert (sorted_videos [first; second; newer] = Ok [newer; first; second]) as Hsort
    by (vm_compute; reflexivity).
  split; [exact Hrec|]. split; [exact Hsort|].
  exact (sorted_videos_stable _ _ (lit "20240101") Hrec Hsort).
Defined.

Lemma with_keys_length videos keyed_videos :
  with_keys videos = Ok keyed_videos → length keyed_videos = length videos.
Proof.
  revert keyed_videos. induction videos as [|v videos IH]; intros keyed_videos.
  { by intros [= <-]. }
  cbn [with_keys]. unfold_monads.
  destruct (sort_key v) as [k|]; [|done].
  destruct (with_keys videos) as [r|]; [|done].
  intros [= <-]. simpl. by rewrite (IH r).
Qed.

Lemma video_rows_shape E videos rows :
  video_rows E videos = Ok rows →
  length rows = length videos ∧ Forall (λ row, length row = 4) rows.
Proof.
  revert rows. induction videos as [|v videos IH]; intros rows.
  { by intros [= <-]. }
  cbn [video_rows]. unfold video_row, ws_append. unfold_monads.
  destruct (py_get v "id" _) as [id|]; [|done].
  destruct (py_get v "title" _) as [title|]; [|done].
  destruct (py_get v "description" _) as [description|]; [|done].
  destruct (py_get v "url" _) as [url|]; [|done].
  destruct (append_error E _); [done|].
  destruct (video_rows E videos) as [rs|]; [|done].
  intros [= <-]. destruct (IH rs eq_refl) as [Hlen Hall].
  split; [simpl; by rewrite Hlen | by constructor].
Qed.

(** Whatever the list of videos, the sheet [export] fills is called
    [Videos], begins with the header row ID, Title, Description, URL, which
    is the one row in bold and centred, has one row of four cells per video
    and nothing else, and has the fixed column widths 15, 50, 80 and 50. *)
Theorem build_worksheet_shape E videos ws :
  build_worksheet E videos = Ok ws →
  ws_title ws = lit "Videos" ∧
  ws_bold_centered ws = [1] ∧
  ws_widths ws = column_widths ∧
  ∃ rows, ws_rows ws = EXCEL_COLUMNS :: rows ∧
          length rows = length videos ∧
          Forall (λ row, length row = 4) rows.
Proof.
  unfold build_worksheet, sorted_videos, ws_append. unfold_monads.
  destruct (with_keys videos) as [keyed_videos|] eqn:Hkeys; [|done].
  destruct (sort_desc keyed_videos) as [sorted|] eqn:Hsort; [|done].
  destruct (append_error E EXCEL_COLUMNS); [done|].
  destruct (video_rows E sorted.*2) as [rows|] eqn:Hrows; [|done].
  intros [= <-]. split_and!; try done.
  exists rows. split; [done|].
  destruct (video_rows_shape _ _ _ Hrows) as [Hlen Hcells]. split; [|done].
  rewrite Hlen, length_fmap, (Permutation_length (sort_desc_perm _ _ Hsort)).
  by apply with_keys_length.
Qed.

Lemma build_worksheet_shape_witness :
  let E := Sample.mk_env None Sample.backend in
  let videos := [Sample.video "a"; Sample.video "b"] in
  let ws := fill_worksheet (row_of <$> videos) in
  build_worksheet E videos = Ok ws ∧
  ws_title ws = lit "Videos" ∧
  ws_bold_centered ws = [1] ∧
  ws_widths ws = column_widths ∧
  ∃ rows, ws_rows ws = EXCEL_COLUMNS :: rows ∧
          length rows = length videos ∧
          Forall (λ row, length row = 4) rows.
Proof.
  intros E videos ws.
  assert (build_worksheet E videos = Ok ws) as Hws by (vm_compute; reflexivity).
  split; [exact Hws|]. exact (build_worksheet_shape E videos ws Hws).
Defined.

(** When [export] returns a path, it has made the output directory (the
    given one, or [outputs] under the working directory), has saved one
    sheet, the one filled from the videos, and the path is that directory
    joined with the template (the given one, or the default) filled with the
    sanitised channel name and today's date.  Nothing is printed and the
    backend is not called. *)
Theorem export_success E videos channel_name output_dir filename_format w p w' :
  export E videos channel_name output_dir filename_format w = (Ok p, w') →
  ∃ ws name template filename,
    build_worksheet E videos = Ok ws ∧
    channel_name = PStr name ∧
    export_template filename_format = Ok template ∧
    str_format E template (_sanitize_filename name) (today E) = Ok filename ∧
    p = Join (export_dir output_dir) filename ∧
    made_dirs w' = made_dirs w ++ [export_dir output_dir] ∧
    saved w' = saved w ++ [(p, ws)] ∧
    stdout w' = stdout w ∧ stderr w' = stderr w ∧ ydl_calls w' = ydl_calls w.
Proof.
  rewrite export_run. unfold export_result, export_raise.
  destruct (build_worksheet E videos) as [ws|e]; [|by destruct (is_Exception _)].
  cbn zeta. destruct (mkdir_error E _) as [e|]; [by destruct (is_Exception _)|].
  destruct channel_name as [| | |name| |]; cbn [sanitize_channel_name]; try done.
  unfold_monads.
  destruct (export_template filename_format) as [template|e] eqn:Htemplate;
    [|by destruct (is_Exception _)].
  destruct (str_format E template (_sanitize_filename name) (today E))
    as [filename|e] eqn:Hformat;
    [|by destruct (is_Exception _)].
  destruct (save_error E _) as [e|]; [by destruct (is_Exception _)|].
  intros [= <- <-]. by exists ws, name, template, filename.
Qed.

(** When [export] raises, no sheet has been saved, nothing has been printed
    and the backend has not been called; the error is [Exception] with the
    text [Failed to export to Excel: ] and the cause, unless the cause is
    one [except Exception] lets through, which comes out as it is. *)
Theorem export_failure E videos channel_name output_dir filename_format w e w' :
  export E videos channel_name output_dir filename_format w = (Raise e, w') →
  saved w' = saved w ∧
  stdout w' = stdout w ∧ stderr w' = stderr w ∧ ydl_calls w' = ydl_calls w ∧
  ((∃ cause, is_Exception (exn_cls cause) = true ∧
             e = Exn Exception [Txt (lit "Failed to export to Excel: "); OfExn cause]) ∨
   is_Exception (exn_cls e) = false).
Proof.
  rewrite export_run.
  assert (∀ cause (made : bool),
            match (export_raise (A := path * worksheet) cause, made) with
            | (Ok (p, ws), _) =>
                (Ok p, with_sheet p ws (with_dir (export_dir output_dir) w))
            | (Raise e0, made0) =>
                (Raise e0, if made0 : bool then with_dir (export_dir output_dir) w else w)
            end = (Raise e, w') →
            (saved w' = saved w ∧ stdout w' = stdout w ∧ stderr w' = stderr w ∧
             ydl_calls w' = ydl_calls w) ∧
            ((∃ cause, is_Exception (exn_cls cause) = true ∧
                e = Exn Exception [Txt (lit "Failed to export to Excel: "); OfExn cause]) ∨
             is_Exception (exn_cls e) = false)) as Hraise.
  { intros cause made. unfold export_raise.
    destruct (is_Exception (exn_cls cause)) eqn:Hcause; intros [= <- <-];
      (split; [by destruct made|]); [left; by exists cause | by right]. }
  unfold export_result.
  destruct (build_worksheet E videos) as [ws|cause].
  2:{ intros H. destruct (Hraise cause false H) as [(? & ? & ? & ?) ?]. by split_and!. }
  cbn zeta. destruct (mkdir_error E _) as [cause|].
  { intros H. destruct (Hraise cause false H) as [(? & ? & ? & ?) ?]. by split_and!. }
  destruct (_ ≫= _) as [filename|cause].
  2:{ intros H. destruct (Hraise cause true H) as [(? & ? & ? & ?) ?]. by split_and!. }
  destruct (save_error E _) as [cause|]; [|done].
  intros H. destruct (Hraise cause true H) as [(? & ? & ? & ?) ?]. by split_and!.
Qed.

(** A channel name that is not a string (the backend gave None for the
    channel) makes [export] fail on [replace]: when the sheet can be filled
    and the directory made, the directory is made, no sheet is saved, and
    the error is the wrapped [AttributeError]. *)
Theorem export_name_not_a_string E videos channel_name output_dir filename_format w ws :
  build_worksheet E videos = Ok ws →
  mkdir_error E (export_dir output_dir) = None →
  (∀ s, channel_name ≠ PStr s) →
  export E videos channel_name output_dir filename_format w
  = (Raise (Exn Exception [Txt (lit "Failed to export to Excel: ");
                           OfExn (builtin AttributeError)]),
     with_dir (export_dir output_dir) w).
Proof.
  intros Hws Hdir Hname. rewrite export_run. unfold export_result.
  rewrite Hws. cbn zeta. rewrite Hdir.
  destruct channel_name as [| | |s| |]; try done. by destruct (Hname s).
Qed.

Lemma export_success_witness :
  let E := Sample.mk_env None Sample.backend in
  let videos := [Sample.video "a"] in
  let p := Join (Join Cwd (lit "outputs")) (lit "Test_20240101.xlsx") in
  let w' := (export E videos (PStr (lit "Test")) None
               (PStr (lit "{channel_name}_{date}.xlsx")) world0).2 in
  export E videos (PStr (lit "Test")) None (PStr (lit "{channel_name}_{date}.xlsx")) world0
  = (Ok p, w') ∧
  ∃ ws name template filename,
    build_worksheet E videos = Ok ws ∧
    PStr (lit "Test") = PStr name ∧
    export_template (PStr (lit "{channel_name}_{date}.xlsx")) = Ok template ∧
    str_format E template (_sanitize_filename name) (today E) = Ok filename ∧
    p = Join (export_dir None) filename ∧
    made_dirs w' = made_dirs world0 ++ [export_dir None] ∧
    saved w' = saved world0 ++ [(p, ws)] ∧
    stdout w' = stdout world0 ∧ stderr w' = stderr world0 ∧
    ydl_calls w' = ydl_calls world0.
Proof.
  intros E videos p w'.
  assert (export E videos (PStr (lit "Test")) None
            (PStr (lit "{channel_name}_{date}.xlsx")) world0 = (Ok p, w')) as Hrun
    by (vm_compute; reflexivity).
  split; [exact Hrun|]. exact (export_success E _ _ _ _ _ _ _ Hrun).
Defined.

Lemma export_failure_witness :
  let E := Sample.mk_env None Sample.backend in
  let e := Exn Exception [Txt (lit "Failed to export to Excel: ");
                          OfExn (builtin AttributeError)] in
  let w' := (export E [PStr (lit "not a record")] (PStr (lit "Test")) None PNone world0).2 in
  export E [PStr (lit "not a record")] (PStr (lit "Test")) None PNone world0
  = (Raise e, w') ∧
  saved w' = saved world0 ∧
  stdout w' = stdout world0 ∧ stderr w' = stderr world0 ∧
  ydl_calls w' = ydl_calls world0 ∧
  ((∃ cause, is_Exception (exn_cls cause) = true ∧
             e = Exn Exception [Txt (lit "Failed to export to Excel: "); OfExn cause]) ∨
   is_Exception (exn_cls e) = false).
Proof.
  intros E e w'.
  assert (export E [PStr (lit "not a record")] (PStr (lit "Test")) None PNone world0
          = (Raise e, w')) as Hrun by (vm_compute; reflexivity).
  split; [exact Hrun|]. exact (export_failure E _ _ _ _ _ _ _ Hrun).
Defined.

Lemma export_name_not_a_string_witness :
  let E := Sample.mk_env None Sample.backend in
  let videos := [Sample.video "a"] in
  let ws := fill_worksheet (row_of <$> videos) in
  build_worksheet E videos = Ok ws ∧
  mkdir_error E (export_dir None) = None ∧
  (∀ s, PNone ≠ PStr s) ∧
  export E videos PNone None PNone world0
  = (Raise (Exn Exception [Txt (lit "Failed to export to Excel: ");
                           OfExn (builtin AttributeError)]),
     with_dir (export_dir None) world0).
Proof.
  intros E videos ws.
  assert (build_worksheet E videos = Ok ws) as Hws by (vm_compute; reflexivity).
  split; [exact Hws|]. split; [done|]. split; [done|].
  exact (export_name_not_a_string E videos PNone None PNone world0 ws Hws eq_refl
           (λ s H, eq_ind PNone (λ v, match v with PNone => True | _ => False end) I _ H)).
Defined.
(* ===================================================================== *)
(** * The configuration loader *)
(* ===================================================================== *)

Lemma fill_defaults_filled i d :
  is_Some (d !! "name") → is_Some (d !! "enabled") → fill_defaults i d = d.
Proof.
  intros [n Hn] [e He]. unfold fill_defaults.
  rewrite (bool_decide_eq_false_2 (d !! "enabled" = None)) by congruence.
  by rewrite (bool_decide_eq_false_2 (d !! "name" = None)) by congruence.
Qed.

Lemma fill_defaults_idemp i d : fill_defaults i (fill_defaults i d) = fill_defaults i d.
Proof.
  destruct (fill_defaults_lookup i d) as (Hname & Henabled & _).
  apply fill_defaults_filled; by eexists.
Qed.

Lemma imap_fill_defaults_idemp (old : list pydict) :
  imap fill_defaults (imap fill_defaults old) = imap fill_defaults old.
Proof.
  apply list_eq. intros i. rewrite !list_lookup_imap.
  destruct (old !! i) as [c|]; [|done]. simpl. by rewrite fill_defaults_idemp.
Qed.

Lemma imap_fill_defaults_url (old : list pydict) :
  Forall (λ c, is_Some (c !! "url")) old →
  Forall (λ c, is_Some (c !! "url")) (imap fill_defaults old).
Proof.
  intros Hurl. apply Forall_forall. intros c [i Hc]%list_elem_of_lookup_1.
  apply list_lookup_imap_Some in Hc as (c0 & Hc0 & ->).
  destruct (fill_defaults_lookup i c0) as (_ & _ & Hother).
  rewrite (Hother "url") by done.
  rewrite Forall_forall in Hurl. apply Hurl. by eapply list_elem_of_lookup_2.
Qed.

(** Validating twice is validating once: a configuration [_validate] has
    accepted is accepted again and is left as it is. *)
Theorem validate_idempotent self self' :
  _validate self = (Ok tt, self') → _validate self' = (Ok tt, self').
Proof.
  intros (d & old & _ & _ & Hne & Hurl & ->)%validate_ok_inv.
  unfold _validate. cbn [_config config_path py_contains py_getitem].
  rewrite lookup_insert_eq.
  rewrite bool_decide_eq_true_2 by (by eexists).
  destruct (imap fill_defaults old) as [|c new] eqn:Hnew.
  { destruct old; [done|]. by rewrite imap_cons in Hnew. }
  cbn [fmap list_fmap]. change (PDict c :: (PDict <$> new)) with (PDict <$> c :: new).
  rewrite <- Hnew.
  rewrite (validate_channels_ok 0 _ (imap_fill_defaults_url _ Hurl)).
  cbn [Nat.add]. rewrite imap_fill_defaults_idemp.
  by rewrite insert_insert_eq.
Qed.

Lemma validate_idempotent_witness :
  let self :=
    {| config_path := Path (lit "channels.yaml");
       _config := Sample.config [<["enabled" := PBool false]> (Sample.channel "u1");
                                 Sample.channel "u2"] |} in
  let self' := (_validate self).2 in
  _validate self = (Ok tt, self') ∧ _validate self' = (Ok tt, self').
Proof.
  intros self self'.
  assert (_validate self = (Ok tt, self')) as Hvalid by (vm_compute; reflexivity).
  split; [exact Hvalid | exact (validate_idempotent self self' Hvalid)].
Defined.

Lemma validate_channels_first_error i (good : list pydict) bad rest :
  Forall (λ c, is_Some (c !! "url")) good →
  ¬ channel_ok bad →
  validate_channels i ((PDict <$> good) ++ bad :: rest)
  = (Raise (Exn ValueError [Txt (lit "Channel "); Num (i + length good);
                            Txt (refusal bad)]),
     (PDict <$> imap (λ j, fill_defaults (i + j)) good) ++ bad :: rest).
Proof.
  intros Hgood Hbad. revert i. induction Hgood as [|c good [u Hu] _ IH]; intros i.
  - cbn [fmap list_fmap app imap length validate_channels]. rewrite Nat.add_0_r.
    destruct bad as [| | | | |d]; try done. cbn [refusal].
    rewrite bool_decide_eq_true_2; [done|].
    destruct (d !! "url") as [u|] eqn:Hu; [|done].
    destruct Hbad. exists d. by rewrite Hu.
  - cbn [fmap list_fmap app imap length validate_channels].
    rewrite (bool_decide_eq_false_2 (c !! "url" = None)) by congruence.
    rewrite IH. rewrite Nat.add_0_r.
    replace (S i + length good) with (i + S (length good)) by lia.
    do 4 f_equal. apply imap_ext. intros j ? _. simpl. f_equal. lia.
Qed.

(** When an entry of the channel list is refused, the error names its index
    counted from 0 (the placeholder names count from 1), the entries before
    it have already received their defaults, and the refused entry and those
    after it are untouched. *)
Theorem validate_first_error self (d : pydict) (good : list pydict) bad rest :
  _config self = PDict d →
  d !! "channels" = Some (PList ((PDict <$> good) ++ bad :: rest)) →
  Forall (λ c, is_Some (c !! "url")) good →
  ¬ channel_ok bad →
  _validate self
  = (Raise (Exn ValueError [Txt (lit "Channel "); Num (length good); Txt (refusal bad)]),
     {| config_path := config_path self;
        _config := PDict (<["channels" :=
            PList ((PDict <$> imap fill_defaults good) ++ bad :: rest)]> d) |}).
Proof.
  intros Hcfg Hch Hgood Hbad. unfold _validate. rewrite Hcfg.
  cbn [py_contains py_getitem]. rewrite Hch.
  rewrite bool_decide_eq_true_2 by (by eexists).
  pose proof (validate_channels_first_error 0 good bad rest Hgood Hbad) as Hrun.
  destruct ((PDict <$> good) ++ bad :: rest) as [|c channels] eqn:Hlist.
  { by destruct good. }
  by rewrite Hrun.
Qed.

Lemma validate_first_error_witness :
  let d : pydict :=
    <["channels" := PList [PDict (Sample.channel "u1"); PStr (lit "u2")]]> ∅ in
  let self := {| config_path := Path (lit "channels.yaml"); _config := PDict d |} in
  _config self = PDict d ∧
  d !! "channels"
    = Some (PList ((PDict <$> [Sample.channel "u1"]) ++ PStr (lit "u2") :: [])) ∧
  Forall (λ c : pydict, is_Some (c !! "url")) [Sample.channel "u1"] ∧
  ¬ channel_ok (PStr (lit "u2")) ∧
  _validate self
  = (Raise (Exn ValueError [Txt (lit "Channel "); Num 1; Txt (lit " must be a dictionary")]),
     {| config_path := config_path self;
        _config := PDict (<["channels" :=
            PList ((PDict <$> imap fill_defaults [Sample.channel "u1"])
                   ++ PStr (lit "u2") :: [])]> d) |}).
Proof.
  intros d self.
  assert (Forall (λ c : pydict, is_Some (c !! "url")) [Sample.channel "u1"]) as Hgood.
  { apply Forall_singleton. by eexists. }
  assert (¬ channel_ok (PStr (lit "u2"))) as Hbad by (by intros (? & ? & ?)).
  split; [done|]. split; [done|]. split; [exact Hgood|]. split; [exact Hbad|].
  exact (validate_first_error self d [Sample.channel "u1"] (PStr (lit "u2")) []
           eq_refl eq_refl Hgood Hbad).
Defined.

Lemma load_ok_inv E self cfg loader :
  load E self = (Ok cfg, loader) →
  ∃ (d : pydict) (old : list pydict),
    old ≠ [] ∧ Forall (λ c, is_Some (c !! "url")) old ∧
    cfg = _config loader ∧
    loader = {| config_path := config_path self;
                _config := PDict (<["channels" :=
                    PList (PDict <$> imap fill_defaults old)]> d) |}.
Proof.
  unfold load. destruct (file_text E _) as [text|]; [|done].
  destruct (yaml_safe_load E text) as [v|]; [|done].
  destruct (_validate _) as [[[]|e] self'] eqn:Hvalid; [|done].
  intros [= <- <-].
  apply validate_ok_inv in Hvalid as (d & old & _ & _ & Hne & Hurl & ->).
  by exists d, old.
Qed.

(** What [load] returns is the configuration the loader keeps, a mapping
    whose channel list is a non-empty list of entries that all have a url, a
    name and an enabled flag. *)
Theorem load_postcondition E self cfg loader :
  load E self = (Ok cfg, loader) →
  cfg = _config loader ∧ config_path loader = config_path self ∧
  ∃ (d : pydict) channels,
    cfg = PDict d ∧ d !! "channels" = Some (PList channels) ∧
    channels ≠ [] ∧ Forall complete_channel channels.
Proof.
  intros (d & old & Hne & Hurl & -> & ->)%load_ok_inv.
  split; [done|]. split; [done|].
  eexists _, _. split; [done|]. rewrite lookup_insert_eq. split; [done|]. split.
  - destruct old; [done|]. by rewrite imap_cons.
  - apply Forall_fmap, Forall_forall. intros c [i Hc]%list_elem_of_lookup_1.
    apply list_lookup_imap_Some in Hc as (c0 & Hc0 & ->).
    destruct (fill_defaults_lookup i c0) as (Hname & Henabled & Hother).
    exists (fill_defaults i c0). split; [done|]. rewrite Hname, Henabled.
    rewrite (Hother "url") by done. split_and!; [|by eexists..].
    rewrite Forall_forall in Hurl. apply Hurl. by eapply list_elem_of_lookup_2.
Qed.

Lemma load_postcondition_witness :
  let E := Sample.mk_env (Some Sample.three_channels) Sample.backend in
  let loader := (load E (ConfigLoader_init (lit "channels.yaml"))).2 in
  load E (ConfigLoader_init (lit "channels.yaml")) = (Ok (_config loader), loader) ∧
  _config loader = _config loader ∧
  config_path loader = config_path (ConfigLoader_init (lit "channels.yaml")) ∧
  ∃ (d : pydict) channels,
    _config loader = PDict d ∧ d !! "channels" = Some (PList channels) ∧
    channels ≠ [] ∧ Forall complete_channel channels.
Proof.
  intros E loader.
  assert (load E (ConfigLoader_init (lit "channels.yaml")) = (Ok (_config loader), loader))
    as Hload by (vm_compute; reflexivity).
  split; [exact Hload|]. exact (load_postcondition E _ _ _ Hload).
Defined.

Lemma ensure_loaded_loaded E self cfg loader :
  load E self = (Ok cfg, loader) → ∀ E', ensure_loaded E' loader = (Ok tt, loader).
Proof.
  intros (d & old & _ & _ & _ & ->)%load_ok_inv E'.
  unfold ensure_loaded. cbn [_config]. by rewrite truthy_dict_insert.
Qed.

(** The loader reads the file when it is asked for the channels or for the
    output settings before [load] was called, and an error of that load is
    the error of the call; once a load has succeeded it does not read the
    file again, whatever has become of it. *)
Theorem loader_loads_once E config_path :
  get_enabled_channels E (ConfigLoader_init config_path)
  = match load E (ConfigLoader_init config_path) with
    | (Ok _, loader) => get_enabled_channels E loader
    | (Raise e, loader) => (Raise e, loader)
    end ∧
  get_output_settings E (ConfigLoader_init config_path)
  = match load E (ConfigLoader_init config_path) with
    | (Ok _, loader) => get_output_settings E loader
    | (Raise e, loader) => (Raise e, loader)
    end ∧
  ∀ self cfg loader E',
    load E self = (Ok cfg, loader) →
    get_enabled_channels E' loader = get_enabled_channels E loader ∧
    get_output_settings E' loader = get_output_settings E loader ∧
    (get_enabled_channels E loader).2 = loader ∧
    (get_output_settings E loader).2 = loader.
Proof.
  split_and!.
  - unfold get_enabled_channels at 1, ensure_loaded at 1. cbn [ConfigLoader_init _config truthy].
    rewrite map_to_list_empty. cbn [negb].
    destruct (load E _) as [[cfg|e] loader] eqn:Hload; [|done].
    unfold get_enabled_channels. by rewrite (ensure_loaded_loaded E _ _ _ Hload).
  - unfold get_output_settings at 1, ensure_loaded at 1. cbn [ConfigLoader_init _config truthy].
    rewrite map_to_list_empty. cbn [negb].
    destruct (load E _) as [[cfg|e] loader] eqn:Hload; [|done].
    unfold get_output_settings. by rewrite (ensure_loaded_loaded E _ _ _ Hload).
  - intros self cfg loader E' Hload.
    unfold get_enabled_channels, get_output_settings.
    by rewrite !(ensure_loaded_loaded E _ _ _ Hload).
Qed.

Lemma loader_loads_once_witness :
  let E := Sample.mk_env (Some Sample.three_channels) Sample.backend in
  let E' := Sample.mk_env None Sample.backend in
  let loader := (load E (ConfigLoader_init (lit "channels.yaml"))).2 in
  load E (ConfigLoader_init (lit "channels.yaml")) = (Ok (_config loader), loader) ∧
  get_enabled_channels E' loader = get_enabled_channels E loader ∧
  get_output_settings E' loader = get_output_settings E loader ∧
  (get_enabled_channels E loader).2 = loader ∧
  (get_output_settings E loader).2 = loader.
Proof.
  intros E E' loader.
  assert (load E (ConfigLoader_init (lit "channels.yaml")) = (Ok (_config loader), loader))
    as Hload by (vm_compute; reflexivity).
  split; [exact Hload|].
  exact (proj2 (proj2 (loader_loads_once E (lit "channels.yaml"))) _ _ _ E' Hload).
Defined.

(** The output settings of a loaded configuration: the two defaults when it
    has no output section; when the section is a mapping, its keys, and the
    defaults for the keys it lacks; when the section is anything else (a
    section left empty is None), [TypeError]. *)
Theorem output_settings_spec E self cfg loader :
  load E self = (Ok cfg, loader) →
  ∃ d : pydict, cfg = PDict d ∧
    match d !! "output" with
    | None => get_output_settings E loader = (Ok output_defaults, loader)
    | Some (PDict o) =>
        ∃ settings, get_output_settings E loader = (Ok settings, loader) ∧
          ∀ k, settings !! k = match o !! k with
                               | Some v => Some v
                               | None => output_defaults !! k
                               end
    | Some _ => get_output_settings E loader = (Raise (builtin TypeError), loader)
    end.
Proof.
  intros Hload. pose proof (ensure_loaded_loaded E _ _ _ Hload E) as Hloaded.
  destruct (load_ok_inv E _ _ _ Hload) as (d & old & _ & _ & -> & Hloader).
  unfold get_output_settings. rewrite Hloaded. rewrite Hloader. cbn [_config py_get].
  eexists. split; [done|]. unfold_monads.
  destruct (_ !! "output") as [output|]; cbn [default from_option id].
  - destruct output as [| | | | |o]; try done.
    eexists. split; [done|]. intros k. rewrite lookup_union.
    by destruct (o !! k), (output_defaults !! k).
  - by rewrite (left_id_L ∅ (∪)).
Qed.

Lemma output_settings_spec_witness :
  let document :=
    PDict (<["output" := PNone]> (<["channels" := PList [PDict (Sample.channel "u")]]> ∅)) in
  let E := Sample.mk_env (Some document) Sample.backend in
  let loader := (load E (ConfigLoader_init (lit "channels.yaml"))).2 in
  load E (ConfigLoader_init (lit "channels.yaml")) = (Ok (_config loader), loader) ∧
  get_output_settings E loader = (Raise (builtin TypeError), loader) ∧
  ∃ d : pydict, _config loader = PDict d ∧
    match d !! "output" with
    | None => get_output_settings E loader = (Ok output_defaults, loader)
    | Some (PDict o) =>
        ∃ settings, get_output_settings E loader = (Ok settings, loader) ∧
          ∀ k, settings !! k = match o !! k with
                               | Some v => Some v
                               | None => output_defaults !! k
                               end
    | Some _ => get_output_settings E loader = (Raise (builtin TypeError), loader)
    end.
Proof.
  intros document E loader.
  assert (load E (ConfigLoader_init (lit "channels.yaml")) = (Ok (_config loader), loader))
    as Hload by (vm_compute; reflexivity).
  split; [exact Hload|]. split; [vm_compute; reflexivity|].
  exact (output_settings_spec E _ _ _ Hload).
Defined.
(* ===================================================================== *)
(** * The command line *)
(* ===================================================================== *)

(** [process_single_channel] step by step. *)
Lemma process_single_channel_unfold E url output_dir filename_format w :
  process_single_channel E url output_dir filename_format w
  = match print E (extracting_line url) w with
    | (Raise e, w1) => (Raise e, w1)
    | (Ok _, w1) =>
        match extract E url w1 with
        | (Raise e, w2) => (Raise e, w2)
        | (Ok (videos, channel_name), w2) =>
            match print E (found_line videos channel_name) w2 with
            | (Raise e, w3) => (Raise e, w3)
            | (Ok _, w3) =>
                match videos with
                | [] => print E [Txt (lit "No videos found!")] w3
                | _ :: _ =>
                    match print E exporting_line w3 with
                    | (Raise e, w4) => (Raise e, w4)
                    | (Ok _, w4) =>
                        match export E videos channel_name output_dir filename_format w4
                        with
                        | (Raise e, w5) => (Raise e, w5)
                        | (Ok output_path, w5) =>
                            match print E (success_line output_path) w5 with
                            | (Raise e, w6) => (Raise e, w6)
                            | (Ok _, w6) =>
                                print E [Txt (lit "  Total videos: ");
                                         Num (length videos)] w6
                            end
                        end
                    end
                end
            end
        end
    end.
Proof.
  unfold process_single_channel, extracting_line, found_line, exporting_line, success_line.
  unfold_monads.
  destruct (print E _ w) as [[[]|e] w1]; [|done].
  destruct (extract E url w1) as [[[videos channel_name]|e] w2]; [|done].
  destruct (print E _ w2) as [[[]|e] w3]; [|done].
  destruct videos as [|video videos]; [done|].
  destruct (print E _ w3) as [[[]|e] w4]; [|done].
  destruct (export E _ _ _ _ w4) as [[output_path|e] w5]; [|done].
  by destruct (print E _ w5) as [[[]|e] w6].
Qed.

(** Single channel mode, when no interrupt arrives.  When the standard
    output takes every line, the backend is called once, with the first
    argument as the URL: a failed extraction ends the run with status 1 and
    one line on the error stream, and nothing is saved; a channel without
    videos ends it with status 0 and nothing saved; for a channel with
    videos the run ends as the export does, with status 0 and the file of
    the export saved, the place being [outputs] of the working directory
    joined with the filled default template, or with status 1, the error of
    the export on the error stream and nothing saved.  When the export has
    returned and the standard output refuses the line that announces it, the
    run ends with status 1 and that error on the error stream, and the file
    is saved all the same. *)
Theorem single_channel_spec E prog url rest w :
  interrupt_free E →
  ¬ is_config_flag url →
  (stdout_accepts E →
   ∃ r w', main E (prog :: url :: rest) w = (r, w') ∧
     ydl_calls w' = ydl_calls w ++ [(extract_options E, PStr url)] ∧
     match extraction E w (PStr url) with
     | Raise e =>
         r = exit_1 ∧ stderr w' = stderr w ++ [error_line (extract_failed e)] ∧
         saved w' = saved w
     | Ok ([], _) => r = Ok tt ∧ stderr w' = stderr w ∧ saved w' = saved w
     | Ok (videos, channel_name) =>
         match (export_result E videos channel_name None PNone).1 with
         | Ok file => r = Ok tt ∧ stderr w' = stderr w ∧ saved w' = saved w ++ [file]
         | Raise e =>
             r = exit_1 ∧ stderr w' = stderr w ++ [error_line e] ∧ saved w' = saved w
         end
     end) ∧
  (∀ videos channel_name file e,
     extraction E w (PStr url) = Ok (videos, channel_name) →
     videos ≠ [] →
     (export_result E videos channel_name None PNone).1 = Ok file →
     print_error E (extracting_line (PStr url)) = None →
     print_error E (found_line videos channel_name) = None →
     print_error E exporting_line = None →
     print_error E (success_line file.1) = Some e →
     ∃ w', main E (prog :: url :: rest) w = (exit_1, w') ∧
       saved w' = saved w ++ [file] ∧
       stderr w' = stderr w ++ [error_line e]).
Proof.
  intros Hfree Hnot. pose proof Hfree as (_ & Hquiet & Hprint). split.
  - intros Hacc. rewrite main_handler, (config_flag_false _ Hnot).
    rewrite process_single_channel_unfold.
    rewrite (print_accepted E _ _ (Hacc _)), extract_run.
    change (extract_info E _ (extract_options E) (PStr url) ≫= extract_from_info E)
      with (extraction E w (PStr url)).
    pose proof (catchable_extraction_at E (length (ydl_calls w)) (PStr url) Hfree)
      as Hcatch.
    change (extraction_at E (length (ydl_calls w)) (PStr url))
      with (extraction E w (PStr url)) in Hcatch.
    destruct (extraction E w (PStr url)) as [[[|video videos] channel_name]|e0].
    + rewrite !(print_accepted E _ _ (Hacc _)). by eexists _, _.
    + rewrite !(print_accepted E _ _ (Hacc _)), export_run.
      pose proof (catchable_export_result E (video :: videos) channel_name None PNone
                    Hquiet) as Hexport.
      destruct (export_result E _ _ _ _) as [[[p ws]|e] made]; cbn [fst] in *.
      * rewrite !(print_accepted E _ _ (Hacc _)). by eexists _, _.
      * destruct e as [cls msg]. simpl in Hexport.
        destruct cls; try done;
          (eexists _, _; split; [done|]; cbn; by destruct made).
    + simpl in Hcatch. rewrite Hcatch. by eexists _, _.
  - intros videos channel_name [p ws] e Hextraction Hvideos Hexport
      Hline1 Hline2 Hline3 Hline4.
    pose proof (Hprint _ _ Hline4) as Hexn.
    rewrite main_handler, (config_flag_false _ Hnot).
    rewrite process_single_channel_unfold.
    rewrite (print_accepted E _ _ Hline1), extract_run.
    change (extract_info E _ (extract_options E) (PStr url) ≫= extract_from_info E)
      with (extraction E w (PStr url)).
    rewrite Hextraction, (print_accepted E _ _ Hline2).
    destruct videos as [|video videos]; [done|].
    rewrite (print_accepted E _ _ Hline3), export_run.
    destruct (export_result E _ _ _ _) as [r made]. cbn [fst] in Hexport. subst r.
    rewrite (print_refused E _ e _ Hline4).
    destruct e as [cls msg]. simpl in Hexn.
    destruct cls; try done; by eexists.
Qed.

Lemma single_channel_spec_witness :
  let E := Sample.mk_env None Sample.backend in
  let N := narrow_console E in
  let prog := lit "yt-extractor" in
  let url := lit "first" in
  let record id := PDict (video_data E (PStr (lit id)) (PStr []) (PStr []) (PStr [])) in
  let videos := [record "a"; record "b"; record "c"] in
  let file := (Join (Join Cwd (lit "outputs")) (lit "first_videos.xlsx"),
               fill_worksheet (row_of <$> videos)) in
  (interrupt_free E ∧ ¬ is_config_flag url ∧ stdout_accepts E ∧
   ∃ r w', main E (prog :: url :: []) world0 = (r, w') ∧
     ydl_calls w' = ydl_calls world0 ++ [(extract_options E, PStr url)] ∧
     match extraction E world0 (PStr url) with
     | Raise e =>
         r = exit_1 ∧ stderr w' = stderr world0 ++ [error_line (extract_failed e)] ∧
         saved w' = saved world0
     | Ok ([], _) => r = Ok tt ∧ stderr w' = stderr world0 ∧ saved w' = saved world0
     | Ok (videos, channel_name) =>
         match (export_result E videos channel_name None PNone).1 with
         | Ok file =>
             r = Ok tt ∧ stderr w' = stderr world0 ∧ saved w' = saved world0 ++ [file]
         | Raise e =>
             r = exit_1 ∧ stderr w' = stderr world0 ++ [error_line e] ∧
             saved w' = saved world0
         end
     end) ∧
  (interrupt_free N ∧
   ∃ w', main N (prog :: url :: []) world0 = (exit_1, w') ∧
     saved w' = saved world0 ++ [file] ∧
     stderr w' = stderr world0 ++ [error_line (builtin UnicodeEncodeError)]).
Proof.
  intros E N prog url record videos file.
  assert (¬ is_config_flag url) as Hnot.
  { intros [H|H]; vm_compute in H; discriminate H. }
  pose proof (sample_interrupt_free None) as Hfree.
  assert (interrupt_free N) as HfreeN.
  { split_and!; try done.
    - intros n opts u. change (catchable (Sample.backend u)).
      unfold Sample.backend. by destruct (py_eq u _).
    - intros l e. unfold print_error, N, narrow_console.
      destruct (has_check_mark l); [by intros [= <-] | done]. }
  split.
  - split; [exact Hfree|]. split; [exact Hnot|]. split; [done|].
    exact (proj1 (single_channel_spec E prog url [] world0 Hfree Hnot)
             (sample_stdout_accepts None Sample.backend)).
  - split; [exact HfreeN|].
    apply (proj2 (single_channel_spec N prog url [] world0 HfreeN Hnot)
             videos (PStr (lit "first")) file (builtin UnicodeEncodeError));
      [by vm_compute | done | by vm_compute | reflexivity..].
Defined.

(** Printing lines touches the standard output only, and adds the lines
    when every one of them is taken. *)
Lemma print_all_effect E ls w :
  stderr (print_all E ls w).2 = stderr w ∧
  ydl_calls (print_all E ls w).2 = ydl_calls w ∧
  made_dirs (print_all E ls w).2 = made_dirs w ∧
  saved (print_all E ls w).2 = saved w ∧
  (Forall (λ l, print_error E l = None) ls →
   print_all E ls w = (Ok tt, {| stdout := stdout w ++ ls; stderr := stderr w;
                                 ydl_calls := ydl_calls w; made_dirs := made_dirs w;
                                 saved := saved w |})).
Proof.
  revert w. induction ls as [|l ls IH]; intros w.
  { split_and!; try done. intros _. cbn. rewrite app_nil_r. by destruct w. }
  cbn [print_all]. unfold mbind, M_bind, print.
  destruct (print_error E l) as [e|] eqn:Hl.
  { split_and!; try done. intros [Hl' _]%Forall_cons. congruence. }
  destruct (IH (printed l w)) as (Herr & Hcalls & Hdirs & Hsaved & Hall).
  fold (printed l w).
  destruct (print_all E ls (printed l w)) as [[[]|e] w'] eqn:Hrun;
    cbn [snd] in *; (split_and!; [done..|]); intros [_ Hls]%Forall_cons;
    specialize (Hall Hls); [|done].
  injection Hall as ->. cbn. by rewrite <- app_assoc.
Qed.

(** Without an argument [main] prints the usage text and ends with an
    exception, whatever the standard output does: the backend is not
    called, nothing reaches the error stream, no directory is made and
    nothing is saved; when the standard output takes the six lines of the
    usage text, they are printed and the run ends with status 1.  With the
    configuration flag and no path after it, [main] prints one line on the
    error stream and ends with status 1, the backend is not called and
    nothing is written. *)
Theorem main_argument_errors E :
  (∀ argv w, (length argv < 2)%nat →
     (∃ e w', main E argv w = (Raise e, w') ∧
        stderr w' = stderr w ∧ ydl_calls w' = ydl_calls w ∧
        made_dirs w' = made_dirs w ∧ saved w' = saved w) ∧
     (Forall (λ l, print_error E l = None) usage →
      ∃ w', main E argv w = (exit_1, w') ∧ exit_status (main E argv w).1 = 1 ∧
        stdout w' = stdout w ++ usage ∧ stderr w' = stderr w ∧
        ydl_calls w' = ydl_calls w ∧ made_dirs w' = made_dirs w ∧ saved w' = saved w)) ∧
  (∀ prog flag w, is_config_flag flag →
     ∃ w', main E [prog; flag] w = (exit_1, w') ∧
       exit_status (main E [prog; flag] w).1 = 1 ∧
       stdout w' = stdout w ∧
       stderr w' = stderr w ++ [[Txt (lit "Error: Config file path required")]] ∧
       ydl_calls w' = ydl_calls w ∧ made_dirs w' = made_dirs w ∧ saved w' = saved w).
Proof.
  split.
  - intros argv w Hlen.
    assert (main E argv w = (print_all E usage;; sys_exit 1) w) as ->.
    { destruct argv as [|prog [|arg1 args]]; [done..|]. simpl in Hlen. lia. }
    unfold mbind, M_bind.
    destruct (print_all_effect E usage w) as (Herr & Hcalls & Hdirs & Hsaved & Hall).
    split.
    + destruct (print_all E usage w) as [[[]|e] w']; cbn [snd] in *; by eexists _, _.
    + intros Husage. rewrite (Hall Husage). eexists. split; [done|]. by split_and!.
  - intros prog flag w Hflag.
    rewrite main_handler, (config_flag_true _ Hflag).
    eexists. split; [done|]. cbn. by split_and!.
Qed.

Lemma main_argument_errors_witness :
  let E := Sample.mk_env None Sample.backend in
  (length [lit "yt-extractor"] < 2)%nat ∧
  Forall (λ l, print_error E l = None) usage ∧
  is_config_flag (lit "-c") ∧
  (∃ w', main E [lit "yt-extractor"] world0 = (exit_1, w') ∧
     exit_status (main E [lit "yt-extractor"] world0).1 = 1 ∧
     stdout w' = stdout world0 ++ usage ∧ stderr w' = stderr world0 ∧
     ydl_calls w' = ydl_calls world0 ∧ made_dirs w' = made_dirs world0 ∧
     saved w' = saved world0) ∧
  (∃ w', main E [lit "yt-extractor"; lit "-c"] world0 = (exit_1, w') ∧
     exit_status (main E [lit "yt-extractor"; lit "-c"] world0).1 = 1 ∧
     stdout w' = stdout world0 ∧
     stderr w' = stderr world0 ++ [[Txt (lit "Error: Config file path required")]] ∧
     ydl_calls w' = ydl_calls world0 ∧ made_dirs w' = made_dirs world0 ∧
     saved w' = saved world0).
Proof.
  intros E.
  assert ((length [lit "yt-extractor"] < 2)%nat) as Hlen by (simpl; lia).
  assert (Forall (λ l, print_error E l = None) usage) as Husage
    by (apply Forall_forall; intros l _; reflexivity).
  assert (is_config_flag (lit "-c")) as Hflag by (right; reflexivity).
  split; [exact Hlen|]. split; [exact Husage|]. split; [exact Hflag|]. split.
  - exact (proj2 (proj1 (main_argument_errors E) [lit "yt-extractor"] world0 Hlen) Husage).
  - exact (proj2 (main_argument_errors E) (lit "yt-extractor") (lit "-c") world0 Hflag).
Defined.
(* ===================================================================== *)
(** * What escapes [main] *)
(* ===================================================================== *)

Lemma catchable_M_bind {A B} (m : M A) (k : A → M B) w :
  catchable (m w).1 → (∀ a w', catchable (k a w').1) → catchable ((m ≫= k) w).1.
Proof.
  unfold mbind, M_bind. destruct (m w) as [[a|e] w']; [intros _ Hk; apply Hk | done].
Qed.

Lemma catchable_lift {A} (r : result A) w : catchable r → catchable (lift r w).1.
Proof. done. Qed.

Lemma catchable_py_getitem v k : catchable (py_getitem v k).
Proof. destruct v as [| | | | |d]; try done. simpl. by destruct (d !! k). Qed.

Lemma catchable_try_except {A} (m : M A) (h : exn → M A) w :
  catchable (m w).1 → (∀ e w', catchable (h e w').1) → catchable (try_except m h w).1.
Proof.
  unfold try_except. destruct (m w) as [[a|e] w']; [done|]. simpl.
  intros -> Hh. apply Hh.
Qed.

Lemma catchable_print E l w : interrupt_free E → catchable (print E l w).1.
Proof.
  intros (_ & _ & Hprint). unfold print.
  destruct (print_error E l) as [e|] eqn:Hl; [by eapply Hprint | done].
Qed.

Lemma catchable_extract E url w : interrupt_free E → catchable (extract E url w).1.
Proof.
  intros Hfree. rewrite extract_run. cbn [fst].
  pose proof (catchable_extraction_at E (length (ydl_calls w)) url Hfree) as Hcatch.
  unfold extraction_at in Hcatch.
  destruct (_ ≫= _) as [r|e]; [done|]. simpl in Hcatch. by rewrite Hcatch.
Qed.

Lemma catchable_export E videos channel_name output_dir filename_format w :
  quiet_files E →
  catchable (export E videos channel_name output_dir filename_format w).1.
Proof.
  intros Hquiet. rewrite export_run.
  pose proof (catchable_export_result E videos channel_name output_dir filename_format
                Hquiet) as Hcatch.
  by destruct (export_result E _ _ _ _) as [[[p ws]|e] made].
Qed.

Lemma catchable_process_single_channel E url output_dir filename_format w :
  interrupt_free E →
  catchable (process_single_channel E url output_dir filename_format w).1.
Proof.
  intros Hfree. pose proof Hfree as (_ & Hquiet & _).
  unfold process_single_channel.
  apply catchable_M_bind; [by apply catchable_print|]. intros _ w1.
  apply catchable_M_bind; [by apply catchable_extract|]. intros [videos channel_name] w2.
  apply catchable_M_bind; [by apply catchable_print|]. intros _ w3.
  destruct videos as [|video videos]; [by apply catchable_print|].
  apply catchable_M_bind; [by apply catchable_print|]. intros _ w4.
  apply catchable_M_bind; [by apply catchable_export|]. intros output_path w5.
  apply catchable_M_bind; [by apply catchable_print|]. intros _ w6.
  by apply catchable_print.
Qed.

Lemma catchable_process_channel E settings n i channel w :
  interrupt_free E → catchable (process_channel E settings n i channel w).1.
Proof.
  intros Hfree. pose proof Hfree as (_ & Hquiet & _).
  unfold process_channel.
  apply catchable_M_bind; [apply catchable_lift, catchable_py_get|]. intros channel_name w1.
  apply catchable_M_bind; [apply catchable_lift, catchable_py_getitem|].
  intros channel_url w2.
  apply catchable_M_bind; [by apply catchable_print|]. intros _ w3.
  apply catchable_M_bind; [by apply catchable_print|]. intros _ w4.
  apply catchable_try_except; [|done].
  apply catchable_M_bind; [by apply catchable_extract|]. intros [videos extracted_name] w5.
  apply catchable_M_bind; [apply catchable_lift, catchable_py_get|]. intros declared w6.
  apply catchable_M_bind; [by apply catchable_print|]. intros _ w7.
  destruct videos as [|video videos]; [by apply catchable_print|].
  apply catchable_M_bind; [apply catchable_lift, catchable_py_getitem|].
  intros directory w8.
  apply catchable_M_bind; [apply catchable_lift; by destruct directory|].
  intros output_dir w9.
  apply catchable_M_bind; [by apply catchable_export|]. intros output_path w10.
  apply catchable_M_bind; [by apply catchable_print|]. intros _ w11.
  by apply catchable_print.
Qed.

Lemma catchable_process_channels E settings n i channels w :
  interrupt_free E → catchable (process_channels E settings n i channels w).1.
Proof.
  intros Hfree. revert i w. induction channels as [|channel channels IH]; intros i w.
  { done. }
  cbn [process_channels].
  apply catchable_M_bind; [by apply catchable_process_channel|]. intros _ w1. apply IH.
Qed.

Lemma catchable_enabled_only channels : catchable (enabled_only channels).
Proof.
  induction channels as [|channel channels IH]; [done|]. cbn [enabled_only].
  apply catchable_bind; [apply catchable_py_get|]. intros enabled.
  apply catchable_bind; [exact IH | done].
Qed.

Lemma catchable_get_enabled_channels E self : catchable (get_enabled_channels E self).1.
Proof.
  unfold get_enabled_channels, ensure_loaded.
  assert (∀ self', catchable (channels ← py_get (_config self') "channels" (PList []);
                              items ← py_iter channels;
                              enabled_only items)) as Hrest.
  { intros self'. apply catchable_bind; [apply catchable_py_get|]. intros channels.
    apply catchable_bind; [apply catchable_py_iter|]. intros items.
    apply catchable_enabled_only. }
  destruct (negb (truthy (_config self))).
  - pose proof (catchable_load E self) as Hload.
    destruct (load E self) as [[cfg|e] self']; [|done]. simpl. apply Hrest.
  - simpl. apply Hrest.
Qed.

Lemma catchable_process_config_file E config_path w :
  interrupt_free E → catchable (process_config_file E config_path w).1.
Proof.
  intros Hfree. rewrite process_config_file_unfold.
  pose proof (catchable_print E [Txt (lit "Loading configuration from: "); Txt config_path]
                w Hfree) as Hp1.
  destruct (print E _ w) as [[[]|e] w1]; [|done].
  pose proof (catchable_load E (ConfigLoader_init config_path)) as Hload.
  destruct (load E _) as [[cfg|e] loader]; [|done].
  pose proof (catchable_get_enabled_channels E loader) as Henabled.
  destruct (get_enabled_channels E loader) as [[channels|e] loader1]; [|done].
  pose proof (catchable_get_output_settings E loader1) as Hsettings.
  destruct (get_output_settings E loader1) as [[settings|e] loader2]; [|done].
  match goal with
  | |- context [print E ?l w1] => pose proof (catchable_print E l w1 Hfree) as Hp2
  end.
  destruct (print E _ w1) as [[[]|e] w2]; [|done].
  pose proof (catchable_process_channels E settings (length channels) 1 channels w2 Hfree)
    as Hloop.
  destruct (process_channels E _ _ _ _ w2) as [[[]|e] w3]; [|done].
  by apply catchable_print.
Qed.

Lemma catchable_print_all E ls w :
  interrupt_free E → catchable (print_all E ls w).1.
Proof.
  intros Hfree. revert w. induction ls as [|l ls IH]; intros w; [done|].
  cbn [print_all]. apply catchable_M_bind; [by apply catchable_print|].
  intros _ w1. apply IH.
Qed.

(** When no interrupt arrives while the collaborators run, no exception but
    [SystemExit(1)] leaves a run that has a first argument, whatever the
    arguments, the configuration file, the answers of the backend and the
    standard output are: [main] returns, status 0, or exits with status 1.
    A run without an argument does the same when the standard output takes
    the usage text; in every case the status is 0 or 1. *)
Theorem main_exit_status E argv w :
  interrupt_free E →
  ((2 ≤ length argv)%nat ∨ Forall (λ l, print_error E l = None) usage →
   (main E argv w).1 = Ok tt ∧ exit_status (main E argv w).1 = 0 ∨
   (main E argv w).1 = exit_1 ∧ exit_status (main E argv w).1 = 1) ∧
  (exit_status (main E argv w).1 ≤ 1)%nat.
Proof.
  intros Hfree.
  assert (∀ r : result unit, r = Ok tt ∨ r = exit_1 →
            r = Ok tt ∧ exit_status r = 0 ∨ r = exit_1 ∧ exit_status r = 1) as Hstatus.
  { intros r [->| ->]; [by left | by right]. }
  assert ((2 ≤ length argv)%nat →
          (main E argv w).1 = Ok tt ∨ (main E argv w).1 = exit_1) as Hlong.
  { destruct argv as [|prog [|arg1 args]]; [simpl; lia..|]. intros _.
    rewrite main_handler. cbn zeta.
    assert (∀ (m : M unit), catchable (m w).1 →
      match m w with
      | (Ok tt, w') => (Ok tt, w')
      | (Raise e, w') =>
          match exn_cls e with
          | KeyboardInterrupt =>
              match print_error E cancelled_line with
              | Some e' => (Raise e', w')
              | None => (exit_130, printed cancelled_line w')
              end
          | SystemExit => (Raise e, w')
          | _ => (exit_1, reported (error_line e) w')
          end
      end.1 = Ok tt ∨
      match m w with
      | (Ok tt, w') => (Ok tt, w')
      | (Raise e, w') =>
          match exn_cls e with
          | KeyboardInterrupt =>
              match print_error E cancelled_line with
              | Some e' => (Raise e', w')
              | None => (exit_130, printed cancelled_line w')
              end
          | SystemExit => (Raise e, w')
          | _ => (exit_1, reported (error_line e) w')
          end
      end.1 = exit_1) as Hcatch.
    { intros m. destruct (m w) as [[[]|[cls msg]] w']; [by left|].
      simpl. intros Hexn. right. by destruct cls. }
    destruct (bool_decide (arg1 = lit "--config") || bool_decide (arg1 = lit "-c")).
    - destruct args as [|config_path rest]; [by right|].
      apply Hcatch. by apply catchable_process_config_file.
    - apply Hcatch. by apply catchable_process_single_channel. }
  assert ((length argv < 2)%nat →
          main E argv w = (print_all E usage;; sys_exit 1) w) as Hshort.
  { destruct argv as [|prog [|arg1 args]]; [done..|]. simpl. lia. }
  split.
  - intros [Hlen|Husage]; [by apply Hstatus, Hlong|].
    destruct (decide (2 ≤ length argv)%nat) as [Hlen|Hlen]; [by apply Hstatus, Hlong|].
    rewrite Hshort by lia. unfold mbind, M_bind.
    destruct (print_all_effect E usage w) as (_ & _ & _ & _ & Hall).
    rewrite (Hall Husage). by right.
  - destruct (decide (2 ≤ length argv)%nat) as [Hlen|Hlen].
    { destruct (Hlong Hlen) as [->| ->]; simpl; lia. }
    rewrite Hshort by lia. unfold mbind, M_bind.
    pose proof (catchable_print_all E usage w Hfree) as Hcatch.
    destruct (print_all E usage w) as [[[]|[cls msg]] w']; [simpl; lia|].
    simpl in Hcatch. destruct cls; try done; simpl; lia.
Qed.

Lemma main_exit_status_witness :
  let E := Sample.mk_env (Some Sample.three_channels) Sample.backend in
  interrupt_free E ∧ (2 ≤ length Sample.batch_argv)%nat ∧
  ((main E Sample.batch_argv world0).1 = Ok tt ∧
   exit_status (main E Sample.batch_argv world0).1 = 0 ∨
   (main E Sample.batch_argv world0).1 = exit_1 ∧
   exit_status (main E Sample.batch_argv world0).1 = 1) ∧
  (exit_status (main E Sample.batch_argv world0).1 ≤ 1)%nat.
Proof.
  intros E.
  assert ((2 ≤ length Sample.batch_argv)%nat) as Hlen by (simpl; lia).
  split; [apply sample_interrupt_free|]. split; [exact Hlen|].
  pose proof (main_exit_status E Sample.batch_argv world0
                (sample_interrupt_free (Some Sample.three_channels))) as [Hends Hstatus].
  split; [exact (Hends (or_introl Hlen)) | exact Hstatus].
Defined.
(* ===================================================================== *)
(** * An interrupt *)
(* ===================================================================== *)

(** An interrupt of the backend leaves [extract] as it is. *)
Lemma extract_interrupted E url w e :
  extract_info E (length (ydl_calls w)) (extract_options E) url = Raise e →
  exn_cls e = KeyboardInterrupt →
  extract E url w = (Raise e, called (extract_options E, url) w).
Proof. intros Hcall Hexn. rewrite extract_run, Hcall. simpl. by rewrite Hexn. Qed.

(** Single channel mode, interrupted while the backend lists the channel,
    on a standard output that takes the two lines: [main] prints the
    cancellation line after the line that announced the extraction and ends
    with status 130; nothing reaches the error stream and nothing is
    written. *)
Theorem interrupt_single_channel E prog url rest w e :
  ¬ is_config_flag url →
  print_error E (extracting_line (PStr url)) = None →
  print_error E cancelled_line = None →
  extract_info E (length (ydl_calls w)) (extract_options E) (PStr url) = Raise e →
  exn_cls e = KeyboardInterrupt →
  ∃ w', main E (prog :: url :: rest) w = (exit_130, w') ∧
    exit_status (main E (prog :: url :: rest) w).1 = 130 ∧
    stdout w' = stdout w ++ [[Txt (lit "Extracting videos from: "); OfVal (PStr url)];
                             cancelled_line] ∧
    stderr w' = stderr w ∧
    ydl_calls w' = ydl_calls w ++ [(extract_options E, PStr url)] ∧
    made_dirs w' = made_dirs w ∧ saved w' = saved w.
Proof.
  intros Hnot Hline Hcancel Hcall Hexn.
  rewrite main_handler, (config_flag_false _ Hnot).
  rewrite process_single_channel_unfold, (print_accepted E _ _ Hline).
  rewrite (extract_interrupted E _ (printed (extracting_line (PStr url)) w) e Hcall Hexn).
  rewrite Hexn, Hcancel.
  eexists. split; [done|]. cbn. rewrite <- !app_assoc. by split_and!.
Qed.

Lemma interrupt_single_channel_witness :
  let E := Sample.mk_env None interrupted_backend in
  let prog := lit "yt-extractor" in
  let url := lit "stop" in
  let e := builtin KeyboardInterrupt in
  ¬ is_config_flag url ∧
  print_error E (extracting_line (PStr url)) = None ∧
  print_error E cancelled_line = None ∧
  extract_info E (length (ydl_calls world0)) (extract_options E) (PStr url) = Raise e ∧
  exn_cls e = KeyboardInterrupt ∧
  ∃ w', main E (prog :: url :: []) world0 = (exit_130, w') ∧
    exit_status (main E (prog :: url :: []) world0).1 = 130 ∧
    stdout w' = stdout world0 ++ [[Txt (lit "Extracting videos from: "); OfVal (PStr url)];
                                  cancelled_line] ∧
    stderr w' = stderr world0 ∧
    ydl_calls w' = ydl_calls world0 ++ [(extract_options E, PStr url)] ∧
    made_dirs w' = made_dirs world0 ∧ saved w' = saved world0.
Proof.
  intros E prog url e.
  assert (¬ is_config_flag url) as Hnot.
  { intros [H|H]; vm_compute in H; discriminate H. }
  assert (extract_info E (length (ydl_calls world0)) (extract_options E) (PStr url)
          = Raise e) as Hcall by (vm_compute; reflexivity).
  split; [exact Hnot|]. split; [reflexivity|]. split; [reflexivity|].
  split; [exact Hcall|]. split; [reflexivity|].
  exact (interrupt_single_channel E prog url [] world0 e Hnot eq_refl eq_refl Hcall
           eq_refl).
Defined.

(** One turn of the loop whose extraction is not interrupted returns. *)
Lemma process_channel_returns E settings n i (c : pydict) url w :
  quiet_files E →
  stdout_accepts E →
  c !! "url" = Some url →
  catchable (extract_info E (length (ydl_calls w)) (extract_options E) url) →
  ∃ w', process_channel E settings n i (PDict c) w = (Ok tt, w') ∧
    ydl_calls w' = ydl_calls w ++ [(extract_options E, url)].
Proof.
  intros Hquiet Hacc Hurl Hcall. unfold process_channel. cbn [py_get py_getitem].
  rewrite Hurl. unfold try_except, print, print_err. unfold_monads. rewrite !Hacc.
  set (w1 := {| stdout := _ |}).
  rewrite extract_run.
  change (extract_info E (length (ydl_calls w1)) (extract_options E) url
            ≫= extract_from_info E)
    with (extraction_at E (length (ydl_calls w)) url).
  assert (catchable (extraction_at E (length (ydl_calls w)) url)) as Hcatch.
  { apply catchable_bind; [done | apply catchable_extract_from_info]. }
  destruct (extraction_at E (length (ydl_calls w)) url) as [[videos extracted_name]|e0].
  2:{ simpl in Hcatch. rewrite Hcatch. cbn [extract_failed exn_cls is_Exception].
      by eexists. }
  rewrite ?Hacc. destruct videos as [|video videos]; [rewrite ?Hacc; by eexists|].
  cbn [py_getitem].
  destruct (settings !! "directory") as [directory|]; simpl; [|by eexists].
  destruct (Path_of directory) as [output_dir|e] eqn:Hdir; simpl.
  2:{ assert (is_Exception (exn_cls e) = true) as ->.
      { destruct directory; try (by injection Hdir as <-). done. }
      by eexists. }
  rewrite export_run.
  match goal with
  | |- context [export_result E ?vs ?name ?dir ?fmt] =>
      pose proof (catchable_export_result E vs name dir fmt Hquiet) as Hexport;
      destruct (export_result E vs name dir fmt) as [[[p ws]|e] made]
  end; cbn [fst] in Hexport.
  - rewrite ?Hacc. by eexists.
  - simpl in Hexport. rewrite Hexport. eexists. split; [done|]. by destruct made.
Qed.

(** One turn of the loop whose extraction is interrupted: the interrupt
    leaves the loop. *)
Lemma process_channel_interrupted E settings n i (c : pydict) url w e :
  stdout_accepts E →
  c !! "url" = Some url →
  extract_info E (length (ydl_calls w)) (extract_options E) url = Raise e →
  exn_cls e = KeyboardInterrupt →
  ∃ w', process_channel E settings n i (PDict c) w = (Raise e, w') ∧
    ydl_calls w' = ydl_calls w ++ [(extract_options E, url)] ∧
    stderr w' = stderr w ∧ saved w' = saved w.
Proof.
  intros Hacc Hurl Hcall Hexn. unfold process_channel. cbn [py_get py_getitem].
  rewrite Hurl. unfold try_except, print, print_err. unfold_monads. rewrite !Hacc.
  set (w1 := {| stdout := _ |}).
  rewrite (extract_interrupted E _ w1 e Hcall Hexn). rewrite Hexn.
  by eexists.
Qed.

Lemma process_channels_interrupted E settings n i (before : list pydict)
    (c : pydict) (rest : list pyval) w e :
  quiet_files E →
  stdout_accepts E →
  Forall (λ c, is_Some (c !! "url")) (before ++ [c]) →
  (∀ j c', before !! j = Some c' →
     catchable (extract_info E (length (ydl_calls w) + j) (extract_options E) (url_of c'))) →
  extract_info E (length (ydl_calls w) + length before) (extract_options E) (url_of c)
    = Raise e →
  exn_cls e = KeyboardInterrupt →
  ∃ w', process_channels E settings n i ((PDict <$> before) ++ PDict c :: rest) w
        = (Raise e, w') ∧
    ydl_calls w'
    = ydl_calls w ++ ((λ c, (extract_options E, url_of c)) <$> (before ++ [c])).
Proof.
  intros Hquiet Hacc. revert i w.
  induction before as [|b before IH]; intros i w Hall Hbefore Hcall Hexn.
  - apply Forall_singleton in Hall as [url Hurl].
    unfold url_of in *. rewrite Hurl in *. cbn [default from_option id] in Hcall.
    rewrite Nat.add_0_r in Hcall.
    destruct (process_channel_interrupted E settings n i c url w e Hacc Hurl Hcall Hexn)
      as (w' & Hrun & Hcalls & _).
    exists w'. cbn [fmap list_fmap app process_channels]. unfold mbind, M_bind.
    rewrite Hrun. split; [done|]. rewrite Hcalls. simpl. by rewrite Hurl.
  - apply Forall_cons in Hall as [[url Hurl] Hall].
    assert (catchable (extract_info E (length (ydl_calls w)) (extract_options E) url))
      as Hb.
    { specialize (Hbefore 0 b eq_refl). unfold url_of in Hbefore. rewrite Hurl in Hbefore.
      by rewrite Nat.add_0_r in Hbefore. }
    destruct (process_channel_returns E settings n i b url w Hquiet Hacc Hurl Hb)
      as (w1 & Hrun & Hcalls).
    destruct (IH (S i) w1) as (w' & Hloop & Hcalls'); [done| | |done|].
    + intros j c' Hj. rewrite Hcalls, length_app. simpl.
      replace (length (ydl_calls w) + 1 + j) with (length (ydl_calls w) + S j) by lia.
      by apply Hbefore.
    + rewrite Hcalls, length_app. simpl.
      by replace (length (ydl_calls w) + 1 + length before)
        with (length (ydl_calls w) + S (length before)) by lia.
    + exists w'. cbn [fmap list_fmap app process_channels].
      unfold mbind at 1, M_bind. rewrite Hrun.
      split; [exact Hloop|]. rewrite Hcalls', Hcalls, <- app_assoc.
      simpl. unfold url_of at 2. by rewrite Hurl.
Qed.

(** Batch mode, interrupted while the backend lists a channel, on a standard
    output that takes every line: the handler of the loop does not catch the
    interrupt, so the channels after it are not attempted; [main] prints the
    cancellation line and ends with status 130.  The backend has been called
    for the channels up to the interrupted one, in the order of the file. *)
Theorem interrupt_stops_batch E prog flag config_path args w cfg loader settings
    (before : list pydict) (c : pydict) (rest : list pydict) e :
  quiet_files E →
  stdout_accepts E →
  is_config_flag flag →
  load E (ConfigLoader_init config_path) = (Ok cfg, loader) →
  (get_enabled_channels E loader).1 = Ok (PDict <$> before ++ c :: rest) →
  (get_output_settings E loader).1 = Ok settings →
  (∀ j c', before !! j = Some c' →
     catchable (extract_info E (length (ydl_calls w) + j) (extract_options E) (url_of c'))) →
  extract_info E (length (ydl_calls w) + length before) (extract_options E) (url_of c)
    = Raise e →
  exn_cls e = KeyboardInterrupt →
  ∃ w', main E (prog :: flag :: config_path :: args) w = (exit_130, w') ∧
    exit_status (main E (prog :: flag :: config_path :: args) w).1 = 130 ∧
    ydl_calls w'
    = ydl_calls w ++ ((λ c, (extract_options E, url_of c)) <$> (before ++ [c])) ∧
    last (stdout w') = Some cancelled_line.
Proof.
  intros Hquiet Hacc Hflag Hload Henabled Hsettings Hbefore Hcall Hexn.
  destruct (load_ok_enabled_channels E _ _ _ Hload) as (enabled & Hchannels & Hurl).
  rewrite Hchannels in Henabled. simpl in Henabled.
  injection Henabled as Henabled.
  assert (Inj (=) (=) PDict) as Hinj by (intros ?? [= ->]; done).
  apply (list_fmap_eq_inj PDict Hinj) in Henabled. subst enabled.
  assert (Forall (λ c, is_Some (c !! "url")) (before ++ [c])) as Hall.
  { apply Forall_app in Hurl as [? [? _]%Forall_cons]. apply Forall_app. by split; [|apply Forall_singleton]. }
  assert (∃ w', main E (prog :: flag :: config_path :: args) w = (exit_130, w') ∧
    ydl_calls w'
    = ydl_calls w ++ ((λ c, (extract_options E, url_of c)) <$> (before ++ [c])) ∧
    last (stdout w') = Some cancelled_line) as (w' & Hmain & ? & ?).
  { rewrite main_handler, (config_flag_true _ Hflag).
    rewrite process_config_file_unfold, (print_accepted E _ _ (Hacc _)).
    rewrite Hload, Hchannels.
    destruct (get_output_settings E loader) as [r loader'].
    simpl in Hsettings. subst r.
    rewrite (print_accepted E _ _ (Hacc _)).
    rewrite fmap_app, fmap_cons.
    match goal with
    | |- context [process_channels E settings ?n 1 _ ?w1] =>
        destruct (process_channels_interrupted E settings n 1 before c (PDict <$> rest)
                    w1 e Hquiet Hacc Hall Hbefore Hcall Hexn)
          as (w2 & -> & Hcalls)
    end.
    rewrite Hexn, (Hacc cancelled_line). eexists. split; [done|]. cbn [ydl_calls stdout printed].
    split; [by rewrite Hcalls|]. apply last_snoc. }
  exists w'. rewrite Hmain. by split_and!.
Qed.

Lemma interrupt_stops_batch_witness :
  let document := Sample.config [Sample.channel "first"; Sample.channel "stop";
                                 Sample.channel "third"] in
  let E := Sample.mk_env (Some document) interrupted_backend in
  let loader := (load E (ConfigLoader_init (lit "channels.yaml"))).2 in
  let name i := <["name" := PStr (channel_placeholder i)]> in
  let on := <["enabled" := PBool true]> in
  let before := [name 1 (on (Sample.channel "first"))] in
  let c := name 2 (on (Sample.channel "stop")) in
  let rest := [name 3 (on (Sample.channel "third"))] in
  let e := builtin KeyboardInterrupt in
  quiet_files E ∧ stdout_accepts E ∧ is_config_flag (lit "--config") ∧
  load E (ConfigLoader_init (lit "channels.yaml")) = (Ok (_config loader), loader) ∧
  (get_enabled_channels E loader).1 = Ok (PDict <$> before ++ c :: rest) ∧
  (get_output_settings E loader).1 = Ok output_defaults ∧
  extract_info E (length (ydl_calls world0) + length before) (extract_options E) (url_of c)
    = Raise e ∧
  exn_cls e = KeyboardInterrupt ∧
  ∃ w', main E (lit "yt-extractor" :: lit "--config" :: lit "channels.yaml" :: []) world0
        = (exit_130, w') ∧
    exit_status
      (main E (lit "yt-extractor" :: lit "--config" :: lit "channels.yaml" :: []) world0).1
      = 130 ∧
    ydl_calls w'
    = ydl_calls world0 ++ ((λ c, (extract_options E, url_of c)) <$> (before ++ [c])) ∧
    last (stdout w') = Some cancelled_line.
Proof.
  intros document E loader name on before c rest e.
  assert (quiet_files E) as Hquiet by (by split_and!).
  assert (stdout_accepts E) as Hacc by done.
  assert (is_config_flag (lit "--config")) as Hflag by (left; reflexivity).
  assert (load E (ConfigLoader_init (lit "channels.yaml")) = (Ok (_config loader), loader))
    as Hload by (vm_compute; reflexivity).
  assert ((get_enabled_channels E loader).1 = Ok (PDict <$> before ++ c :: rest))
    as Henabled by (vm_compute; reflexivity).
  assert ((get_output_settings E loader).1 = Ok output_defaults)
    as Hsettings by (vm_compute; reflexivity).
  assert (∀ j c', before !! j = Some c' →
     catchable (extract_info E (length (ydl_calls world0) + j) (extract_options E)
                  (url_of c'))) as Hbefore.
  { intros [|j] c' Hj; [|discriminate Hj]. injection Hj as <-. vm_compute. exact I. }
  assert (extract_info E (length (ydl_calls world0) + length before) (extract_options E)
            (url_of c) = Raise e) as Hcall by (vm_compute; reflexivity).
  split_and!; [exact Hquiet | exact Hacc | exact Hflag | exact Hload | exact Henabled
              | exact Hsettings | exact Hcall | reflexivity |].
  exact (interrupt_stops_batch E (lit "yt-extractor") (lit "--config") (lit "channels.yaml")
           [] world0 (_config loader) loader output_defaults before c rest e
           Hquiet Hacc Hflag Hload Henabled Hsettings Hbefore Hcall eq_refl).
Defined.
